(** * shadowsocks-go: AEAD chunk framing, request decoding, connection
      handling and the port/password registry.

    A shallow embedding of the Go sources and the properties proved (or
    refuted) about them.  Go values are modelled as follows:
    - [[]byte] is [list byte] (Stdlib's 256-constructor [byte]);
    - [int] is [Z] (the platform is 64-bit; where a value can leave the
      64-bit range the wrap-around is written with [wrap64]);
    - [string] is [string]; a [map[string]T] is a [gmap string T];
    - a function that can fail returns a sum or an option, a function that
      can panic returns an [outcome]. *)

From Stdlib Require Import ZArith List Lia Ascii String DecimalString.
From Stdlib.Strings Require Import Byte.
From stdpp Require Import base option list gmap strings.

Local Open Scope Z_scope.

(** ** Go basics shared by all files *)

(** A call either returns or panics (run-time error, explicit [panic]). *)
Inductive outcome (A : Type) : Type :=
| Returns (a : A)
| Panics (msg : string).
Arguments Returns {A} a.
Arguments Panics {A} msg.

#[global] Instance byte_eq_decision : EqDecision byte := Byte.byte_eq_dec.

(** [int(b)] for a byte [b]. *)
Definition int_of_byte (b : byte) : Z := Z.of_N (Byte.to_N b).

(** [byte(x)] for an int [x]: the low eight bits. *)
Definition byte_of_int (x : Z) : byte :=
  match Byte.of_N (Z.to_N (Z.land x 255)) with
  | Some b => b
  | None => x00
  end.

(** [make([]byte, n)]. *)
Definition make (n : nat) : list byte := replicate n x00.

(** [copy(dst, src)] when the bytes written start at [dst[0]]: [dst] keeps
    its length, its prefix is replaced. *)
Definition overwrite (dst src : list byte) : list byte :=
  take (length dst) (src ++ drop (length src) dst).

(** [buf[lo:hi]] read as a value. *)
Definition slice (buf : list byte) (lo hi : nat) : list byte :=
  take (hi - lo) (drop lo buf).

(** The buffer after a write through the slice [buf[lo:lo+len(src)]]. *)
Definition write_at (buf : list byte) (lo : nat) (src : list byte) : list byte :=
  take lo buf ++ overwrite (drop lo buf) src.

(** Go's [int] on a 64-bit platform: two's complement wrap-around. *)
Definition wrap64 (x : Z) : Z :=
  (x + 2 ^ 63) mod 2 ^ 64 - 2 ^ 63.

(** ** crypto/stream/aes-ctr.go *)

Module AesCtr.

Inductive DecOrEnc := Decrypt | Encrypt.

(** [crypto/aes.KeySizeError]. *)
Inductive error := KeySizeError (k : nat).

(** The [cipher.Block] returned by [aes.NewCipher]: the expanded key is
    determined by the key bytes. *)
Record Block := { block_key : list byte }.

(** [aes.BlockSize]. *)
Definition BlockSize : nat := 16.

(** The CTR state built by [cipher.NewCTR]. *)
Record Stream := { ctr_block : Block; ctr_iv : list byte }.

(** [cipher.AEAD]; [aes-ctr.go] never builds one. *)
Inductive AEAD := mkAEAD.

(** [aes.NewCipher]: [switch len(key) { default: return nil,
    KeySizeError(k); case 16, 24, 32: }]. *)
Definition aes_NewCipher (key : list byte) : Block + error :=
  let k := length key in
  if ((k =? 16) || (k =? 24) || (k =? 32))%nat
  then inl {| block_key := key |}
  else inr (KeySizeError k).

(** [cipher.NewCTR]: panics unless [len(iv) == block.BlockSize()].  The
    text of the panic is the library's and differs between Go releases;
    what is modelled is that the call panics, and nothing below depends on
    the text. *)
Definition cipher_NewCTR (block : Block) (iv : list byte) : outcome Stream :=
  if (length iv =? BlockSize)%nat
  then Returns {| ctr_block := block; ctr_iv := iv |}
  else Panics "bad IV length".

(** [func (this *AESCTR) new(key, iv []byte, doe DecOrEnc)
    (cipher.Stream, cipher.AEAD, error)]; [None] is [nil]. *)
Definition new (key iv : list byte) (doe : DecOrEnc)
  : outcome (option Stream * option AEAD * option error) :=
  match aes_NewCipher key with
  | inr err => Returns (None, None, Some err)
  | inl block =>
      match cipher_NewCTR block iv with
      | Panics msg => Panics msg
      | Returns s => Returns (Some s, None, None)
      end
  end.

(** The key sizes of AES-128, AES-192 and AES-256. *)
Definition key_size_ok (key : list byte) : Prop :=
  length key = 16%nat \/ length key = 24%nat \/ length key = 32%nat.

End AesCtr.

(** ** shadowsocks/conn_aead (src/unnamed/part_001) *)

Module Aead.

Inductive error :=
| EOF                (* io.EOF *)
| ErrUnexpectedEOF   (* io.ErrUnexpectedEOF *)
| ErrCipher.         (* any error returned by the cipher instance *)

(** [io.ReadFull(r, buf)] with [len(buf) = n] on a reader that delivers the
    bytes [r] and then end of file: all [n] bytes or an error; a short read
    consumes what there was. *)
Definition ReadFull (r : list byte) (n : nat) : (list byte + error) * list byte :=
  if (length r <? n)%nat
  then (inr (match r with [] => EOF | _ => ErrUnexpectedEOF end), [])
  else (inl (take n r), drop n r).

(** [func (this *ConnAead) getPayloadSizeMask() int]. *)
Definition getPayloadSizeMask : Z := 0x3FFF.

(** The payload size computed at line 174,
    [int(header[0])<<8 + int(header[1]) & this.getPayloadSizeMask()].
    In Go [<<] and [&] bind tighter than [+], so this is
    [(int(header[0])<<8) + (int(header[1]) & mask)].  The header always
    has [2 + Overhead] bytes, so both index expressions are in range. *)
Definition payload_size_of (header : list byte) : Z :=
  Z.shiftl (int_of_byte (nth 0 header x00)) 8
  + Z.land (int_of_byte (nth 1 header x00)) getPayloadSizeMask.

(** [math.Ceil(float64(packet_len)/float64(mask))]: for [0 <= packet_len <
    2^53] both conversions are exact and the rounding error of the
    quotient (at most [2^-14]) is below [1/mask], so the result is the
    integer ceiling. *)
Definition chunk_num_of (packet_len : Z) : nat :=
  Z.to_nat ((packet_len + getPayloadSizeMask - 1) / getPayloadSizeMask).

Section ConnAead.

(** Modelled from the spec: [CipherAead] (fields [Enc], [Dec], [iv],
    [nonce]; methods [Encrypt], [Decrypt]) is declared in a file that is
    not part of the sources.  [cipher] is the state of one instance;
    [Encrypt(dst, src)] seals [src] as one AEAD message with the current
    nonce, stores ciphertext and tag at the start of [dst] and increments
    the nonce; [Decrypt(dst, src)] verifies and opens one message, stores
    the plaintext at the start of [dst] and increments the nonce; [None]
    is a non-nil [err].  [Overhead] is the tag size
    ([Enc.Overhead()], [Dec.Overhead()]). *)
Context {cipher : Type}.
Variable Overhead : nat.
Variable Encrypt : cipher -> list byte -> option (list byte) * cipher.
Variable Decrypt : cipher -> list byte -> option (list byte) * cipher.

Record ConnAead := {
  dataBuffer : list byte;   (* *bytes.Buffer: the bytes written so far *)
  reader : list byte;       (* io.Reader: the bytes it will still deliver *)
  CipherInst : cipher
}.

Definition set_cipher (this : ConnAead) (c : cipher) : ConnAead :=
  {| dataBuffer := dataBuffer this; reader := reader this; CipherInst := c |}.

(** [this.dataBuffer.Write(p)]: never fails. *)
Definition buffer_write (this : ConnAead) (p : list byte) : ConnAead :=
  {| dataBuffer := dataBuffer this ++ p; reader := reader this;
     CipherInst := CipherInst this |}.

Definition set_reader (this : ConnAead) (r : list byte) : ConnAead :=
  {| dataBuffer := dataBuffer this; reader := r; CipherInst := CipherInst this |}.

(** The [for chunk_counter := chunk_num; chunk_counter > 0;] loop of
    [Pack].  [packet_data] is never re-sliced by the loop: only
    [packet_len] decreases. *)
Fixpoint Pack_loop (chunk_counter : nat) (packet_data : list byte)
    (packet_len : Z) (this : ConnAead) : option error * ConnAead :=
  match chunk_counter with
  | O => (None, this)
  | S chunk_counter' =>
      let payload_len :=
        if packet_len >? getPayloadSizeMask then getPayloadSizeMask else packet_len in
      let packet_buf := make (2 + Overhead + Z.to_nat payload_len + Overhead) in
      (* get header *)
      let packet_buf :=
        <[1%nat := byte_of_int payload_len]>
          (<[0%nat := byte_of_int (Z.shiftr payload_len 8)]> packet_buf) in
      (* pack header *)
      match Encrypt (CipherInst this) (slice packet_buf 0 2) with
      | (None, c) => (Some ErrCipher, set_cipher this c)
      | (Some sealed_header, c) =>
          let packet_buf := overwrite packet_buf sealed_header in
          (* get payload *)
          let payload := slice packet_data 0 (Z.to_nat payload_len) in
          (* pack payload *)
          match Encrypt c payload with
          | (None, c') => (Some ErrCipher, set_cipher this c')
          | (Some sealed_payload, c') =>
              let packet_buf := write_at packet_buf (2 + Overhead) sealed_payload in
              Pack_loop chunk_counter' packet_data (packet_len - payload_len)
                (buffer_write (set_cipher this c') packet_buf)
          end
      end
  end.

(** [func (this *ConnAead) Pack(packet_data []byte) (err error)]. *)
Definition Pack (packet_data : list byte) (this : ConnAead) : option error * ConnAead :=
  let packet_len := Z.of_nat (length packet_data) in
  Pack_loop (chunk_num_of packet_len) packet_data packet_len this.

(** [func (this *ConnAead) UnPack() (err error)]. *)
Definition UnPack (this : ConnAead) : option error * ConnAead :=
  (* read header *)
  match ReadFull (reader this) (2 + Overhead) with
  | (inr err, r) => (Some err, set_reader this r)
  | (inl header, r) =>
      let this := set_reader this r in
      (* unpack header *)
      match Decrypt (CipherInst this) header with
      | (None, c) => (Some ErrCipher, set_cipher this c)
      | (Some plain, c) =>
          let this := set_cipher this c in
          let header := overwrite header plain in
          (* get payload size *)
          let payload_size := payload_size_of header in
          (* read payload encrypted data *)
          match ReadFull (reader this) (Z.to_nat payload_size + Overhead) with
          | (inr err, r) => (Some err, set_reader this r)
          | (inl payload, r) =>
              let this := set_reader this r in
              (* unpack payload *)
              match Decrypt (CipherInst this) payload with
              | (None, c) => (Some ErrCipher, set_cipher this c)
              | (Some plain, c) =>
                  let this := set_cipher this c in
                  let payload := overwrite payload plain in
                  let payload := slice payload 0 (Z.to_nat payload_size) in
                  (None, buffer_write this payload)
              end
          end
      end
  end.

(** [UnPack] called [n] times in a row, stopping at the first error. *)
Fixpoint UnPack_times (n : nat) (this : ConnAead) : option error * ConnAead :=
  match n with
  | O => (None, this)
  | S n' =>
      match UnPack this with
      | (Some err, this') => (Some err, this')
      | (None, this') => UnPack_times n' this'
      end
  end.

End ConnAead.

Arguments ConnAead : clear implicits.

(** The payload lengths of the chunks that [k] rounds of the [Pack] loop
    emit when [packet_len] bytes are left. *)
Fixpoint chunk_lens (k : nat) (packet_len : Z) : list Z :=
  match k with
  | O => []
  | S k' =>
      let payload_len := Z.min packet_len getPayloadSizeMask in
      payload_len :: chunk_lens k' (packet_len - payload_len)
  end.

(** The bytes that chunks of these lengths carry when each of them is
    filled from the start of [packet_data]. *)
Definition carried (packet_data : list byte) (lens : list Z) : list byte :=
  concat (map (fun n => take (Z.to_nat n) packet_data) lens).

(** Sender and receiver of one direction of a connection. *)
Definition sender {cipher : Type} (c : cipher) : ConnAead cipher :=
  {| dataBuffer := []; reader := []; CipherInst := c |}.

Definition receiver {cipher : Type} (stream : list byte) (c : cipher)
  : ConnAead cipher :=
  {| dataBuffer := []; reader := stream; CipherInst := c |}.

(** [n] zero bytes. *)
Definition zeros (n : Z) : list byte := replicate (Z.to_nat n) x00.

(** A packet one byte longer than a chunk: [0x3FFF] zero bytes, then a
    one. *)
Definition two_chunk_packet : list byte := zeros getPayloadSizeMask ++ [x01].

(** A small AEAD used to run [Pack] and [UnPack] on concrete inputs: the
    state is the nonce counter, the ciphertext is the plaintext with
    every byte complemented, the 16-byte tag repeats the low byte of the
    nonce, and opening checks the tag. *)
Module Toy.

Definition Overhead : nat := 16.

Definition flip (b : byte) : byte := byte_of_int (Z.lxor (int_of_byte b) 255).

Definition tag (nonce : nat) : list byte :=
  replicate Overhead (byte_of_int (Z.of_nat nonce)).

Definition seal (nonce : nat) (src : list byte) : list byte :=
  map flip src ++ tag nonce.

Definition Encrypt (nonce : nat) (src : list byte) : option (list byte) * nat :=
  (Some (seal nonce src), S nonce).

Definition Decrypt (nonce : nat) (src : list byte) : option (list byte) * nat :=
  let n := (length src - Overhead)%nat in
  if (length src <? Overhead)%nat then (None, nonce)
  else if bool_decide (drop n src = tag nonce)
       then (Some (map flip (take n src)), S nonce)
       else (None, nonce).

End Toy.

End Aead.

(** ** cmd/shadowsocks-server (src/unnamed/part_000)

    The file holds two copies of the server: lines 1-467 ([Server1], which
    reads the request with one [conn.Read] and hands the bytes to the
    cipher's [UnPack]) and lines 469-924 ([Server2], which reads the
    request with [io.ReadFull]).  The constants, [handleConnection] and the
    password manager are the same in both. *)

(** *** Library functions used by the server *)

Inductive error :=
| ErrRead                          (* io.EOF, io.ErrUnexpectedEOF, a timeout *)
| ErrAddrTypeNotSupported (t : Z). (* fmt.Errorf("addr type %d not supported") *)

(** Modelled from the spec: [ss.Conn] is declared in a file that is not
    part of the sources.  A connection, seen from the reading side, is the
    list of byte runs that the successive [Read] calls will find
    available, in order; after the last one [Read] fails (end of stream or
    read deadline, which [ss.SetReadTimeout] arms). *)
Definition transport := list (list byte).

(** One [conn.Read(buf)] with [len(buf) = n > 0]: at most [n] bytes of the
    run at the head. *)
Definition Read (conn : transport) (n : nat) : (list byte + error) * transport :=
  match conn with
  | [] => (inr ErrRead, [])
  | seg :: rest =>
      if (length seg <=? n)%nat then (inl seg, rest)
      else (inl (take n seg), drop n seg :: rest)
  end.

(** [io.ReadFull(conn, buf)] with [len(buf) = n]: [Read] is called until
    [n] bytes have arrived or it fails. *)
Fixpoint ReadFull (conn : transport) (n : nat) : (list byte + error) * transport :=
  match n with
  | O => (inl [], conn)
  | S _ =>
      match conn with
      | [] => (inr ErrRead, [])
      | seg :: rest =>
          if (length seg <? n)%nat then
            match ReadFull rest (n - length seg) with
            | (inl bs, conn') => (inl (seg ++ bs), conn')
            | (inr err, conn') => (inr err, conn')
            end
          else if (length seg =? n)%nat then (inl seg, rest)
          else (inl (take n seg), drop n seg :: rest)
      end
  end.

(** [binary.BigEndian.Uint16(b)]: [uint16(b[1]) | uint16(b[0])<<8]. *)
Definition BigEndian_Uint16 (b : list byte) : Z :=
  Z.lor (int_of_byte (nth 1 b x00)) (Z.shiftl (int_of_byte (nth 0 b x00)) 8).

(** [strconv.Itoa]: the decimal digits, with a sign when negative. *)
Definition Itoa (x : Z) : string :=
  NilZero.string_of_int (Z.to_int x).

(** [strings.ContainsRune(s, 0x00)]. *)
Fixpoint ContainsNUL (s : string) : bool :=
  match s with
  | EmptyString => false
  | String a s' => if Ascii.eqb a zero then true else ContainsNUL s'
  end.

(** [bytealg.IndexByteString(host, ':') >= 0]. *)
Fixpoint has_colon (s : string) : bool :=
  match s with
  | EmptyString => false
  | String a s' => if Ascii.eqb a ":"%char then true else has_colon s'
  end.

(** [net.JoinHostPort]: a host with a colon in it is taken to be a literal
    IPv6 address and is put in brackets. *)
Definition JoinHostPort (host port : string) : string :=
  if has_colon host then ("[" ++ host ++ "]:" ++ port)%string
  else (host ++ ":" ++ port)%string.

(** The constant block at the head of both copies. *)
Definition AddrMask : Z := 0xf.
Definition idType : nat := 0.
Definition idIP0 : nat := 1.
Definition idDmLen : nat := 1.
Definition idDm0 : nat := 2.
Definition typeIPv4 : Z := 1.
Definition typeDm : Z := 3.
Definition typeIPv6 : Z := 4.
Definition IPv4len : nat := 4.
Definition IPv6len : nat := 16.
Definition lenIPv4 : nat := IPv4len + 2.
Definition lenIPv6 : nat := IPv6len + 2.
Definition lenDmBase : nat := 2.

(** The second [switch] of [getRequest] and the lines after it: the host
    by address type, the port, and the joined result. [IP_String] is
    [net.IP.String]. *)
Definition host_port (IP_String : list byte -> string) (buf : list byte)
    (addrType : byte) (reqEnd : nat) : string :=
  let t := Z.land (int_of_byte addrType) AddrMask in
  let host :=
    if t =? typeIPv4 then IP_String (slice buf idIP0 (idIP0 + IPv4len)%nat)
    else if t =? typeIPv6 then IP_String (slice buf idIP0 (idIP0 + IPv6len)%nat)
    else if t =? typeDm then
      string_of_list_byte
        (slice buf idDm0 (idDm0 + Z.to_nat (int_of_byte (nth idDmLen buf x00)))%nat)
    else EmptyString in
  (* parse port *)
  let port := BigEndian_Uint16 (slice buf (reqEnd - 2)%nat reqEnd) in
  JoinHostPort host (Itoa port).

(** The bytes of a domain request as section 6 lays them out: the address
    type, the length byte, the domain, the port in big-endian order. *)
Definition domain_request (addrType : byte) (domain : list byte) (port : Z)
  : list byte :=
  addrType :: byte_of_int (Z.of_nat (length domain)) :: domain
  ++ [byte_of_int (Z.shiftr port 8); byte_of_int port].

(** *** getRequest, lines 509-565 *)

Module Server2.

Section GetRequest.

Variable IP_String : list byte -> string.

Definition getRequest (conn : transport) : (string + error) * transport :=
  let buf := make 269 in
  (* read till we get possible domain length field *)
  match ReadFull conn (idType + 1)%nat with
  | (inr err, conn) => (inr err, conn)
  | (inl bs, conn) =>
      let buf := write_at buf 0 bs in
      let addrType := nth idType buf x00 in
      let t := Z.land (int_of_byte addrType) AddrMask in
      let bounds : (nat * nat * list byte + error) * transport :=
        if t =? typeIPv4 then (inl (idIP0, (idIP0 + lenIPv4)%nat, buf), conn)
        else if t =? typeIPv6 then (inl (idIP0, (idIP0 + lenIPv6)%nat, buf), conn)
        else if t =? typeDm then
          match ReadFull conn (idDmLen + 1 - (idType + 1))%nat with
          | (inr err, conn) => (inr err, conn)
          | (inl bs, conn) =>
              let buf := write_at buf (idType + 1)%nat bs in
              (inl (idDm0,
                    (idDm0 + Z.to_nat (int_of_byte (nth idDmLen buf x00)) + lenDmBase)%nat,
                    buf), conn)
          end
        else (inr (ErrAddrTypeNotSupported t), conn) in
      match bounds with
      | (inr err, conn) => (inr err, conn)
      | (inl (reqStart, reqEnd, buf), conn) =>
          match ReadFull conn (reqEnd - reqStart)%nat with
          | (inr err, conn) => (inr err, conn)
          | (inl bs, conn) =>
              let buf := write_at buf reqStart bs in
              (inl (host_port IP_String buf addrType reqEnd), conn)
          end
      end
  end.

End GetRequest.

End Server2.

(** *** getRequest, lines 44-112 *)

Module Server1.

(** [data[i]]: a run-time panic when [i] is not below [len(data)]. *)
Definition index (data : list byte) (i : nat) : outcome byte :=
  match data !! i with
  | Some b => Returns b
  | None => Panics "index out of range"
  end.

(** Whether [data[lo:hi]] is a legal slice expression.  Go checks [hi]
    against [cap(data)]; the capacity of the slice that [UnPack] returns is
    not in the sources, and [data] is taken here to have none to spare
    ([cap(data) = len(data)]).  With spare capacity the code would read
    the bytes behind [len(data)] where this model panics; what is proved
    below about this copy either ends in an index expression [data[i]],
    which Go checks against [len(data)], or keeps every slice within
    [len(data)]. *)
Definition in_bounds (data : list byte) (hi : nat) : bool :=
  (hi <=? length data)%nat.

Section GetRequest.

Variable IP_String : list byte -> string.

(** Modelled from the spec: [CipherStream.UnPack] and [CipherAead.UnPack]
    are declared in files that are not part of the sources; they turn the
    bytes of one transport read into plaintext.  The [err] they return is
    overwritten by the next statement before it is looked at, so only the
    data matters here. *)
Variable UnPack : list byte -> list byte.

Definition getRequest (conn : transport) : outcome (string + error) * transport :=
  (* read till we get possible domain length field *)
  match Read conn 2048 with
  | (inr err, conn) => (Returns (inr err), conn)
  | (inl bs, conn) =>
      let data := UnPack bs in
      (* io.ReadFull(bytes.NewReader(data), data[:idType+1]) *)
      if negb (in_bounds data (idType + 1)%nat)
      then (Panics "slice bounds out of range", conn)
      else
        match index data idType with
        | Panics msg => (Panics msg, conn)
        | Returns addrType =>
            let t := Z.land (int_of_byte addrType) AddrMask in
            let bound : outcome (nat + error) :=
              if t =? typeIPv4 then Returns (inl (idIP0 + lenIPv4)%nat)
              else if t =? typeIPv6 then Returns (inl (idIP0 + lenIPv6)%nat)
              else if t =? typeDm then
                match index data idDmLen with
                | Panics msg => Panics msg
                | Returns l => Returns (inl (idDm0 + Z.to_nat (int_of_byte l) + lenDmBase)%nat)
                end
              else Returns (inr (ErrAddrTypeNotSupported t)) in
            match bound with
            | Panics msg => (Panics msg, conn)
            | Returns (inr err) => (Returns (inr err), conn)
            | Returns (inl reqEnd) =>
                if in_bounds data reqEnd
                then (Returns (inl (host_port IP_String data addrType reqEnd)), conn)
                else (Panics "slice bounds out of range", conn)
            end
        end
  end.

End GetRequest.

End Server1.

(** *** handleConnection, lines 119-187 and 572-646

    The two copies differ in their log calls and in the names of the relay
    functions ([PipeDecrypt]/[PipeEncrypt] against [PipeThenClose]); log
    calls are left out.  What the handler does to the outside is recorded
    as a list of events. *)

Inductive event :=
| EvConnCntInc             (* connCnt++ *)
| EvConnCntDec             (* connCnt-- *)
| EvConnClose              (* conn.Close() *)
| EvDial (host : string)   (* net.Dial("tcp", host) *)
| EvRemoteClose            (* remote.Close() *)
| EvGoPipe                 (* go ss.PipeDecrypt(conn, remote, ...) *)
| EvPipe.                  (* ss.PipeEncrypt(remote, conn, ...) *)

#[global] Instance event_eq_decision : EqDecision event.
Proof. solve_decision. Defined.

Inductive dial_result := DialOk | DialErr.

(** How a call ended: by [return], or with a panic still propagating
    after the deferred calls have run. *)
Inductive exit := Normal | Panicking (msg : string).

Definition logCntDelta : Z := 100.

(** [var connCnt int] and [var nextLogConnCnt = logCntDelta]. *)
Record globals := { connCnt : Z; nextLogConnCnt : Z }.

Section Handler.

Variable getRequest : transport -> outcome (string + error) * transport.

(** [net.Dial("tcp", host)]: whether the destination can be reached is a
    fact of the environment. *)
Variable Dial : string -> dial_result.

(** The statements of [handleConnection] from the call of [getRequest] to
    the [return] taken.  The result is the value of [closed] at that
    [return], whether the second [defer] (the one closing [remote]) had
    been reached, the events, and how the body ended. *)
Definition handle_body (conn : transport) : bool * bool * list event * exit :=
  match getRequest conn with
  | (Panics msg, _) => (false, false, [], Panicking msg)
  | (Returns (inr err), _) =>
      (* closed = true; return *)
      (true, false, [], Normal)
  | (Returns (inl host), _) =>
      if ContainsNUL host then
        (* closed = true; return *)
        (true, false, [], Normal)
      else
        match Dial host with
        | DialErr => (false, false, [EvDial host], Normal)
        | DialOk =>
            (* defer; go pipe; pipe; closed = true; return *)
            (true, true, [EvDial host; EvGoPipe; EvPipe], Normal)
        end
  end.

(** [handleConnection].  Each event is kept with the value that the
    package variable [connCnt] has once the event has happened: what a
    goroutine that runs at the same time reads there. *)
Definition handleConnection (conn : transport) (g : globals)
  : globals * list (event * Z) * exit :=
  (* connCnt++ *)
  let g := {| connCnt := wrap64 (connCnt g + 1);
              nextLogConnCnt := nextLogConnCnt g |} in
  let entry := (EvConnCntInc, connCnt g) in
  let g :=
    if wrap64 (connCnt g - nextLogConnCnt g) >=? 0
    then {| connCnt := connCnt g;
            nextLogConnCnt := wrap64 (nextLogConnCnt g + logCntDelta) |}
    else g in
  let '(closed, remote_deferred, evs, how) := handle_body conn in
  let evs := (fun e => (e, connCnt g)) <$> evs in
  (* deferred calls, the last registered first *)
  let evs :=
    evs ++ (if remote_deferred && negb closed
            then [(EvRemoteClose, connCnt g)] else []) in
  (* connCnt-- *)
  let g := {| connCnt := wrap64 (connCnt g - 1);
              nextLogConnCnt := nextLogConnCnt g |} in
  let evs :=
    evs ++ (EvConnCntDec, connCnt g)
        :: (if negb closed then [(EvConnClose, connCnt g)] else []) in
  (g, entry :: evs, how).

End Handler.

(** The request phase fails: [getRequest] returns an error (a read or
    decode error, an address type that is not supported), or the host it
    returns has a NUL in it. *)
Definition request_fails
    (getRequest : transport -> outcome (string + error) * transport)
    (conn : transport) : Prop :=
  match (getRequest conn).1 with
  | Returns (inr _) => True
  | Returns (inl host) => ContainsNUL host = true
  | Panics _ => False
  end.

(** A function that cannot panic, as one that can. *)
Definition returning {A : Type} (f : transport -> A * transport)
  : transport -> outcome A * transport :=
  fun conn => (Returns (f conn).1, (f conn).2).

(** The events of a handler call with the counter values, the events
    alone, the way of ending, and the package variables at the end. *)
Definition trace_of (r : globals * list (event * Z) * exit) : list (event * Z) :=
  r.1.2.
Definition events_of (r : globals * list (event * Z) * exit) : list event :=
  (trace_of r).*1.
Definition exit_of (r : globals * list (event * Z) * exit) : exit := r.2.
Definition globals_of (r : globals * list (event * Z) * exit) : globals := r.1.1.

(** Stand-ins used where a closed example needs some [net.IP.String] and
    some [net.Dial]: the examples carry domain requests, for which
    [net.IP.String] is not called. *)
Definition no_ip : list byte -> string := fun _ => EmptyString.
Definition dial_ok : string -> dial_result := fun _ => DialOk.

(** *** The password manager and the reload, lines 648-766 and 782-863 *)

Module PasswdManager.

(** A [net.Listener] or [*net.UDPConn] is the number of its socket. *)
Record PortListener := { password : string; listener : nat }.
Record UDPListener := { udp_password : string; udp_listener : nat }.

(** The fields of [ss.Config] that the server reads; a [nil] map is the
    empty map. *)
Record Config := {
  ServerPort : Z;
  Password : string;
  PortPassword : gmap string string
}.

(** The package variables, the listening sockets of the process, and a log
    of what was done to them. *)
Record world := {
  udp : bool;
  portListener : gmap string PortListener;
  udpListener : gmap string UDPListener;
  config : Config;
  listening : gmap nat string;      (* open listening socket -> its port *)
  next_socket : nat;                (* number of the next socket created *)
  closes : list nat;                (* Close() calls, in order *)
  started : list (string * string)  (* go run(port, password), in order *)
}.

Definition set_portListener (m : gmap string PortListener) (w : world) : world :=
  {| udp := udp w; portListener := m; udpListener := udpListener w;
     config := config w; listening := listening w;
     next_socket := next_socket w; closes := closes w; started := started w |}.

Definition set_udpListener (m : gmap string UDPListener) (w : world) : world :=
  {| udp := udp w; portListener := portListener w; udpListener := m;
     config := config w; listening := listening w;
     next_socket := next_socket w; closes := closes w; started := started w |}.

Definition set_config (c : Config) (w : world) : world :=
  {| udp := udp w; portListener := portListener w; udpListener := udpListener w;
     config := c; listening := listening w;
     next_socket := next_socket w; closes := closes w; started := started w |}.

(** [ln.Close()]: the socket stops listening. *)
Definition Close (ln : nat) (w : world) : world :=
  {| udp := udp w; portListener := portListener w; udpListener := udpListener w;
     config := config w; listening := delete ln (listening w);
     next_socket := next_socket w; closes := closes w ++ [ln];
     started := started w |}.

(** [go run(port, password)]: the goroutine is created, it has not run. *)
Definition go_run (port passwd : string) (w : world) : world :=
  {| udp := udp w; portListener := portListener w; udpListener := udpListener w;
     config := config w; listening := listening w;
     next_socket := next_socket w; closes := closes w;
     started := started w ++ [(port, passwd)] |}.

(** [net.Listen("tcp", ":"+port)], as far as the sockets of this process
    go: it fails when one of them is already listening under the same port
    string.  The other ways the call can fail (a port number out of range,
    a port held by another process or under another spelling) and port
    ["0"], which the system resolves to a free port each time, are outside
    this model; it is used below only for a registered port whose one
    listener has just been closed. *)
Definition Listen (port : string) (w : world) : option (nat * world) :=
  if bool_decide (map_Exists (λ _ p, p = port) (listening w)) then None
  else
    let ln := next_socket w in
    Some (ln,
      {| udp := udp w; portListener := portListener w;
         udpListener := udpListener w; config := config w;
         listening := <[ln := port]> (listening w);
         next_socket := S ln; closes := closes w; started := started w |}).

Definition add (port passwd : string) (ln : nat) (w : world) : world :=
  set_portListener (<[port := {| password := passwd; listener := ln |}]> (portListener w)) w.

Definition get (port : string) (w : world) : option PortListener :=
  portListener w !! port.

Definition getUDP (port : string) (w : world) : option UDPListener :=
  udpListener w !! port.

Definition del (port : string) (w : world) : world :=
  match get port w with
  | None => w
  | Some pl =>
      let after_udp : option world :=
        if udp w then
          match getUDP port w with
          | None => None                              (* return *)
          | Some upl => Some (Close (udp_listener upl) w)
          end
        else Some w in
      match after_udp with
      | None => w
      | Some w =>
          let w := Close (listener pl) w in
          let w := set_portListener (delete port (portListener w)) w in
          if udp w then set_udpListener (delete port (udpListener w)) w else w
      end
  end.

Definition updatePortPasswd (port passwd : string) (w : world) : world :=
  match get port w with
  | None => go_run port passwd w
  | Some pl =>
      if bool_decide (password pl = passwd) then w
      else go_run port passwd (Close (listener pl) w)
  end.

(** [run], up to the accept loop: [None] is [os.Exit(1)]. *)
Definition run (port passwd : string) (w : world) : option world :=
  match Listen port w with
  | None => None
  | Some (ln, w) => Some (add port passwd ln w)
  end.

Definition enoughOptions (c : Config) : bool :=
  negb (ServerPort c =? 0) && negb (bool_decide (Password c = EmptyString)).

(** [unifyPortPassword], lines 849-863: [None] is the process ended by
    [log.Fatal], so the [return errors.New] after it is never reached. *)
Definition unifyPortPassword (c : Config) : option Config :=
  if bool_decide (size (PortPassword c) = 0%nat) then
    if negb (enoughOptions c) then None
    else
      let port := Itoa (ServerPort c) in
      Some {| ServerPort := ServerPort c; Password := Password c;
              PortPassword := {[ port := Password c ]} |}
  else
    if negb (bool_decide (Password c = EmptyString)) || negb (ServerPort c =? 0)
    then None
    else Some c.

Section Reload.

(** The order in which a [for ... range] statement visits a map. *)
Variable range : gmap string string -> list (string * string).

(** The first loop of [updatePasswd]: the state is the world and
    [oldconfig.PortPassword]. *)
Definition update_loop (todo : list (string * string))
    (st : world * gmap string string) : world * gmap string string :=
  foldl (λ st '(port, passwd),
           (updatePortPasswd port passwd st.1, delete port st.2))
        st todo.

(** The second loop: port password still left in the old config should be
    closed. *)
Definition del_loop (todo : list (string * string)) (w : world) : world :=
  foldl (λ w '(port, _), del port w) w todo.

(** [updatePasswd]; [parsed] is the result of [ss.ParseConfig(configFile)],
    [None] when it fails. The result [None] is the process ended. *)
Definition updatePasswd (parsed : option Config) (w : world) : option world :=
  match parsed with
  | None => Some w
  | Some newconfig =>
      let oldconfig := config w in
      match unifyPortPassword newconfig with
      | None => None
      | Some newconfig =>
          let w := set_config newconfig w in
          let '(w, old_left) :=
            update_loop (range (PortPassword newconfig)) (w, PortPassword oldconfig) in
          Some (del_loop (range old_left) w)
      end
  end.

End Reload.

(** The sockets of the process that listen on [port]. *)
Definition bound_on (port : string) (w : world) : gmap nat string :=
  filter (λ kv, kv.2 = port) (listening w).

(** What holds of the sockets between calls: socket numbers below
    [next_socket] only, and a registered port has no listening socket
    other than the registered one. *)
Definition sockets_ok (w : world) : Prop :=
  (forall ln p, listening w !! ln = Some p -> (ln < next_socket w)%nat)
  /\ (forall port pl ln,
        portListener w !! port = Some pl ->
        listening w !! ln = Some port -> ln = listener pl).

(** The reload scenario of the specification: port 8388 is up, the new
    configuration lists port 8389 only. *)
Definition config_8388 : Config :=
  {| ServerPort := 0; Password := EmptyString;
     PortPassword := {[ "8388"%string := "secret"%string ]} |}.

Definition config_8389 : Config :=
  {| ServerPort := 0; Password := EmptyString;
     PortPassword := {[ "8389"%string := "secret"%string ]} |}.

Definition serving_8388 (udp_flag : bool) : world :=
  {| udp := udp_flag;
     portListener := {[ "8388"%string := {| password := "secret"; listener := 0 |} ]};
     udpListener := ∅;
     config := config_8388;
     listening := {[ 0%nat := "8388"%string ]};
     next_socket := 1;
     closes := [];
     started := [] |}.

End PasswdManager.

(** ** Definitions used to state further properties *)

(** The bytes of an IPv4 or IPv6 request: the address type, the raw
    address, the port in big-endian order. *)
Definition ip_request (addrType : byte) (addr : list byte) (port : Z)
  : list byte :=
  addrType :: addr ++ [byte_of_int (Z.shiftr port 8); byte_of_int port].

(** The value of [reqEnd] that the first [switch] of [getRequest] computes
    from the first bytes of the stream: the length the request declares.
    [None] when the address type is not supported or the bytes that decide
    the length are not there. *)
Definition request_end (stream : list byte) : option nat :=
  match stream with
  | [] => None
  | addrType :: _ =>
      let t := Z.land (int_of_byte addrType) AddrMask in
      if t =? typeIPv4 then Some (idIP0 + lenIPv4)%nat
      else if t =? typeIPv6 then Some (idIP0 + lenIPv6)%nat
      else if t =? typeDm then
        match stream !! idDmLen with
        | Some l => Some (idDm0 + Z.to_nat (int_of_byte l) + lenDmBase)%nat
        | None => None
        end
      else None
  end.

(** Whether [updatePortPasswd port passwd] goes on to [go run]: the port is
    not registered, or registered with another password. *)
Definition needs_run (w : PasswdManager.world) (entry : string * string) : bool :=
  match PasswdManager.get entry.1 w with
  | None => true
  | Some pl => negb (bool_decide (PasswdManager.password pl = entry.2))
  end.

(** The listener that [updatePortPasswd port passwd] closes, if any. *)
Definition closed_for (w : PasswdManager.world) (entry : string * string)
  : option nat :=
  match PasswdManager.get entry.1 w with
  | None => None
  | Some pl =>
      if bool_decide (PasswdManager.password pl = entry.2) then None
      else Some (PasswdManager.listener pl)
  end.

(** Every port of the configuration is registered with the password the
    configuration gives it, and nothing else is registered. *)
Definition registry_matches (c : PasswdManager.Config) (w : PasswdManager.world)
  : Prop :=
  forall port,
    PasswdManager.password <$> PasswdManager.get port w
    = PasswdManager.PortPassword c !! port.

(** What [net.IP.String] gives for a four-byte address, the four numbers
    in decimal with dots between them; a stand-in for [net.IP.String] in
    examples that carry IPv4 requests. *)
Definition dotted_quad (addr : list byte) : string :=
  String.concat "." (map (fun b => Itoa (int_of_byte b)) addr).

(** * Properties *)

(** ** Bytes and machine integers *)

Lemma int_of_byte_range (b : byte) : 0 <= int_of_byte b < 256.
Proof.
  unfold int_of_byte. pose proof (Byte.to_N_bounded b) as Hb.
  lia.
Qed.

Lemma int_of_byte_of_int (x : Z) : int_of_byte (byte_of_int x) = Z.land x 255.
Proof.
  unfold int_of_byte, byte_of_int.
  assert (Hr : 0 <= Z.land x 255 < 256).
  { change 255 with (Z.ones 8). rewrite Z.land_ones by lia.
    apply Z.mod_pos_bound. lia. }
  destruct (Byte.of_N (Z.to_N (Z.land x 255))) as [b|] eqn:E.
  - apply Byte.to_of_N in E. rewrite E. lia.
  - apply Byte.of_N_None_iff in E. lia.
Qed.

Lemma wrap64_id (x : Z) : - 2 ^ 63 <= x < 2 ^ 63 -> wrap64 x = x.
Proof. intros H. unfold wrap64. rewrite Z.mod_small; lia. Qed.

Lemma wrap64_incr_decr (x y : Z) : wrap64 (wrap64 (x + y) - y) = wrap64 x.
Proof.
  unfold wrap64.
  replace ((x + y + 2 ^ 63) mod 2 ^ 64 - 2 ^ 63 - y + 2 ^ 63)
    with ((x + y + 2 ^ 63) mod 2 ^ 64 - y) by lia.
  rewrite Zminus_mod_idemp_l. f_equal. f_equal. lia.
Qed.

(** ** AESCTR.new *)

Section AesCtrFacts.
Import AesCtr.

Lemma aes_NewCipher_ok (key : list byte) :
  key_size_ok key -> aes_NewCipher key = inl {| block_key := key |}.
Proof.
  unfold key_size_ok, aes_NewCipher. intros [H | [H | H]]; rewrite H; reflexivity.
Qed.

Lemma aes_NewCipher_err (key : list byte) :
  ~ key_size_ok key -> aes_NewCipher key = inr (KeySizeError (length key)).
Proof.
  unfold key_size_ok, aes_NewCipher. intros H.
  destruct (length key =? 16)%nat eqn:E1; [apply Nat.eqb_eq in E1; tauto|].
  destruct (length key =? 24)%nat eqn:E2; [apply Nat.eqb_eq in E2; tauto|].
  destruct (length key =? 32)%nat eqn:E3; [apply Nat.eqb_eq in E3; tauto|].
  reflexivity.
Qed.

(** With a key of a legal size and an iv that is not one block long,
    [cipher.NewCTR] panics, and so does [new]: it returns nothing. *)
Lemma new_panics_on_iv_size (key iv : list byte) (doe : DecOrEnc) :
  key_size_ok key -> length iv <> BlockSize ->
  exists msg, new key iv doe = Panics msg.
Proof.
  intros Hk Hiv. unfold new. rewrite (aes_NewCipher_ok _ Hk).
  unfold cipher_NewCTR. apply Nat.eqb_neq in Hiv. rewrite Hiv. by eexists.
Qed.

(** C10 as written fails: a 16-byte key with an empty iv gives no return
    value at all, although the key size is legal. *)
Lemma new_key16_empty_iv_no_stream :
  key_size_ok (replicate 16 x00) /\
  forall r, new (replicate 16 x00) [] Encrypt <> Returns r.
Proof.
  split; [left; reflexivity|]. intros r H. vm_compute in H. discriminate.
Qed.

(** C10 (amended): [AESCTR.new] returns a non-nil CTR stream, a nil AEAD
    and a nil error only when the key is 16, 24 or 32 bytes long, and for
    such a key it does so whenever the iv is one AES block (16 bytes)
    long; for every other key length it returns a nil stream, a nil AEAD
    and a non-nil error, whatever the iv. *)
Theorem new_result_by_key_size (key iv : list byte) (doe : DecOrEnc) :
  ((exists s, new key iv doe = Returns (Some s, None, None)) -> key_size_ok key)
  /\ (key_size_ok key -> length iv = BlockSize ->
      exists s, new key iv doe = Returns (Some s, None, None))
  /\ (~ key_size_ok key ->
      exists err, new key iv doe = Returns (None, None, Some err)).
Proof.
  assert (Hbad : ~ key_size_ok key ->
                 new key iv doe = Returns (None, None, Some (KeySizeError (length key)))).
  { intros Hk. unfold new. rewrite (aes_NewCipher_err _ Hk). reflexivity. }
  split; [|split].
  - intros [s Hs].
    destruct (decide (key_size_ok key)) as [Hk | Hk]; [exact Hk|].
    rewrite (Hbad Hk) in Hs. discriminate.
  - intros Hk Hiv. unfold new. rewrite (aes_NewCipher_ok _ Hk).
    unfold cipher_NewCTR. rewrite Hiv, Nat.eqb_refl. by eexists.
  - intros Hk. eexists. apply (Hbad Hk).
Qed.

Lemma new_result_by_key_size_witness :
  key_size_ok (replicate 32 x02)
  /\ length (replicate 16 x01) = BlockSize
  /\ (exists s, new (replicate 32 x02) (replicate 16 x01) Decrypt
                = Returns (Some s, None, None))
  /\ (~ key_size_ok (replicate 5 x02)
      /\ exists err, new (replicate 5 x02) [] Decrypt
                     = Returns (None, None, Some err)).
Proof.
  assert (H32 : key_size_ok (replicate 32 x02)) by (right; right; reflexivity).
  assert (H5 : ~ key_size_ok (replicate 5 x02))
    by (intros [H | [H | H]]; discriminate H).
  split; [exact H32|]. split; [reflexivity|]. split.
  - apply (new_result_by_key_size (replicate 32 x02) (replicate 16 x01) Decrypt);
      [exact H32 | reflexivity].
  - split; [exact H5|].
    apply (new_result_by_key_size (replicate 5 x02) [] Decrypt). exact H5.
Defined.

End AesCtrFacts.

(** ** handleConnection *)

(** Membership in a list that is written out. *)
Ltac in_explicit H :=
  repeat (apply elem_of_cons in H as [H | H]);
  try (apply elem_of_nil in H; destruct H).

Ltac not_in_explicit :=
  let H := fresh "Hin" in
  intros H; in_explicit H; discriminate.

Section HandlerFacts.

Variable getRequest : transport -> outcome (string + error) * transport.
Variable Dial : string -> dial_result.

(** The body never touches the connection counter and closes nothing. *)
Lemma handle_body_events (conn : transport) :
  forall e, e ∈ (handle_body getRequest Dial conn).1.2 ->
            (exists host, e = EvDial host) \/ e = EvGoPipe \/ e = EvPipe.
Proof.
  intros e. unfold handle_body.
  destruct (getRequest conn) as [[[host | err] | msg] conn']; simpl;
    [destruct (ContainsNUL host); simpl; [|destruct (Dial host); simpl]| |];
    intros H; in_explicit H; subst; eauto.
Qed.

Lemma fmap_pair_fst {A B : Type} (b : B) (l : list A) :
  ((fun a => (a, b)) <$> l).*1 = l.
Proof. induction l as [|a l IH]; [done|]. cbn. by rewrite IH. Qed.

(** The events of [handleConnection] in terms of what the body did. *)
Lemma events_of_handleConnection (conn : transport) (g : globals) :
  events_of (handleConnection getRequest Dial conn g)
  = let '(closed, deferred, evs, _) := handle_body getRequest Dial conn in
    EvConnCntInc
      :: evs ++ (if deferred && negb closed then [EvRemoteClose] else [])
      ++ EvConnCntDec :: (if negb closed then [EvConnClose] else []).
Proof.
  unfold handleConnection, events_of, trace_of.
  destruct (handle_body getRequest Dial conn) as [[[closed deferred] evs] how].
  cbn [fst snd].
  rewrite fmap_cons, !fmap_app, fmap_pair_fst, fmap_cons. cbn [fst].
  rewrite <- app_assoc. do 2 f_equal. by destruct deferred, closed.
Qed.

(** C9: every call of [handleConnection] increments [connCnt] exactly
    once, on entry, and decrements it exactly once, in the deferred
    cleanup that follows everything the body did, on every exit path.
    The first event is the increment, and it leaves the counter one above
    the value it had before the call (with the wrap-around of [int]);
    whatever the body does (the dial, the relay, closing [remote]) happens
    at that value; the decrement puts the counter back, the only event
    that can follow it is closing the client connection, and the handler
    leaves the counter at the value it had before the call. *)
Theorem handleConnection_restores_connCnt (conn : transport) (g : globals) :
  - 2 ^ 63 <= connCnt g < 2 ^ 63 ->
  exists body tail,
    trace_of (handleConnection getRequest Dial conn g)
    = (EvConnCntInc, wrap64 (connCnt g + 1))
        :: body ++ (EvConnCntDec, connCnt g) :: tail
    /\ (forall e c, (e, c) ∈ body ->
          e <> EvConnCntInc /\ e <> EvConnCntDec /\ c = wrap64 (connCnt g + 1))
    /\ (tail = [] \/ tail = [(EvConnClose, connCnt g)])
    /\ wrap64 (connCnt g + 1) <> connCnt g
    /\ connCnt (globals_of (handleConnection getRequest Dial conn g)) = connCnt g.
Proof.
  intros Hrange.
  assert (Hdec : wrap64 (wrap64 (connCnt g + 1) - 1) = connCnt g).
  { rewrite wrap64_incr_decr. by apply wrap64_id. }
  unfold handleConnection, trace_of, globals_of.
  pose proof (handle_body_events conn) as Hbody.
  destruct (handle_body getRequest Dial conn) as [[[closed deferred] evs] how].
  cbn [fst snd] in Hbody. cbn [connCnt nextLogConnCnt].
  destruct (_ >=? 0); cbn [fst snd connCnt]; rewrite Hdec.
  all: exists (((fun e => (e, wrap64 (connCnt g + 1))) <$> evs)
               ++ (if deferred && negb closed
                   then [(EvRemoteClose, wrap64 (connCnt g + 1))] else [])),
              (if negb closed then [(EvConnClose, connCnt g)] else []).
  all: split; [reflexivity|]; split; [|split; [|split; [|reflexivity]]].
  all: try (by destruct closed; auto).
  all: try (unfold wrap64;
            destruct (decide (connCnt g = 2 ^ 63 - 1)) as [-> | Hmax]; [done|];
            rewrite Z.mod_small by lia; lia).
  all: intros e c Hin; apply elem_of_app in Hin as [Hin | Hin];
    [ apply list_elem_of_fmap in Hin as (e' & [= -> ->] & Hin);
      destruct (Hbody e' Hin) as [[h ->] | [-> | ->]]; done
    | destruct (deferred && negb closed); in_explicit Hin;
      injection Hin as -> ->; done ].
Qed.

(** C3 (amended): when the request phase fails, [handleConnection] returns
    without calling [net.Dial]; [closed] has been set before the
    [return], so the deferred cleanup only decrements the counter and does
    not call [conn.Close] either. *)
Theorem handleConnection_request_failure (conn : transport) (g : globals) :
  request_fails getRequest conn ->
  events_of (handleConnection getRequest Dial conn g) = [EvConnCntInc; EvConnCntDec]
  /\ exit_of (handleConnection getRequest Dial conn g) = Normal
  /\ (forall host, EvDial host ∉ events_of (handleConnection getRequest Dial conn g))
  /\ (EvConnClose ∉ events_of (handleConnection getRequest Dial conn g)).
Proof.
  unfold request_fails, handleConnection, handle_body, events_of, exit_of.
  destruct (getRequest conn) as [[[host | err] | msg] conn']; simpl.
  - intros ->. simpl. repeat split; try not_in_explicit; intros ?; not_in_explicit.
  - intros _. repeat split; try not_in_explicit; intros ?; not_in_explicit.
  - intros [].
Qed.

(** C6 (amended): when the decoded host has a NUL in it, the handler does
    not dial the destination; it returns with [closed] set, so the client
    connection is not closed by the handler either. *)
Theorem handleConnection_NUL_host (conn conn' : transport) (host : string)
    (g : globals) :
  getRequest conn = (Returns (inl host), conn') ->
  ContainsNUL host = true ->
  events_of (handleConnection getRequest Dial conn g) = [EvConnCntInc; EvConnCntDec]
  /\ (EvDial host ∉ events_of (handleConnection getRequest Dial conn g))
  /\ (EvConnClose ∉ events_of (handleConnection getRequest Dial conn g)).
Proof.
  intros Hreq Hnul.
  unfold handleConnection, handle_body, events_of. rewrite Hreq, Hnul. simpl.
  repeat split; not_in_explicit.
Qed.

End HandlerFacts.

(** C3 as written fails: a request whose address type is 5 is rejected, and
    the client connection is not closed. *)
Lemma unsupported_type_not_closed :
  request_fails (returning (Server2.getRequest no_ip)) [[x05]]
  /\ (EvConnClose ∉ events_of
       (handleConnection (returning (Server2.getRequest no_ip)) dial_ok [[x05]]
          {| connCnt := 0; nextLogConnCnt := logCntDelta |})).
Proof.
  split; [exact I|]. vm_compute. not_in_explicit.
Qed.

Lemma handleConnection_request_failure_witness :
  request_fails (returning (Server2.getRequest no_ip)) [[x05]]
  /\ events_of
       (handleConnection (returning (Server2.getRequest no_ip)) dial_ok [[x05]]
          {| connCnt := 0; nextLogConnCnt := logCntDelta |})
     = [EvConnCntInc; EvConnCntDec].
Proof.
  split; [exact I|].
  apply (handleConnection_request_failure
           (returning (Server2.getRequest no_ip)) dial_ok [[x05]]
           {| connCnt := 0; nextLogConnCnt := logCntDelta |}).
  exact I.
Defined.

(** C6 as written fails: the one-byte domain [NUL] with port 443 decodes
    to a host with a NUL in it; the handler does not dial, and it does not
    close the client connection. *)
Lemma NUL_host_not_closed :
  (exists host conn',
      Server2.getRequest no_ip [[x03; x01; x00; x01; xbb]] = (inl host, conn')
      /\ ContainsNUL host = true)
  /\ (EvConnClose ∉ events_of
       (handleConnection (returning (Server2.getRequest no_ip)) dial_ok
          [[x03; x01; x00; x01; xbb]]
          {| connCnt := 0; nextLogConnCnt := logCntDelta |})).
Proof.
  split.
  - eexists _, _. split; [vm_compute; reflexivity | reflexivity].
  - vm_compute. not_in_explicit.
Qed.

Lemma handleConnection_NUL_host_witness :
  ContainsNUL (String zero ":443") = true
  /\ events_of
       (handleConnection (returning (Server2.getRequest no_ip)) dial_ok
          [[x03; x01; x00; x01; xbb]]
          {| connCnt := 0; nextLogConnCnt := logCntDelta |})
     = [EvConnCntInc; EvConnCntDec].
Proof.
  split; [reflexivity|].
  apply (handleConnection_NUL_host
           (returning (Server2.getRequest no_ip)) dial_ok
           [[x03; x01; x00; x01; xbb]] [] (String zero ":443")
           {| connCnt := 0; nextLogConnCnt := logCntDelta |});
    reflexivity.
Defined.

(** A relayed connection that finds the counter at 41: the dial and the
    relay run with the counter at 42, and the deferred cleanup puts it
    back to 41. *)
Lemma handleConnection_restores_connCnt_witness :
  - 2 ^ 63 <= 41 < 2 ^ 63
  /\ trace_of
       (handleConnection (returning (Server2.getRequest no_ip)) dial_ok
          [[x03; x01; x41; x01; xbb]]
          {| connCnt := 41; nextLogConnCnt := logCntDelta |})
     = [(EvConnCntInc, 42); (EvDial "A:443", 42); (EvGoPipe, 42); (EvPipe, 42);
        (EvConnCntDec, 41)]
  /\ connCnt (globals_of
       (handleConnection (returning (Server2.getRequest no_ip)) dial_ok
          [[x03; x01; x41; x01; xbb]]
          {| connCnt := 41; nextLogConnCnt := logCntDelta |})) = 41.
Proof.
  split; [lia|]. split; [reflexivity|].
  destruct (handleConnection_restores_connCnt
              (returning (Server2.getRequest no_ip)) dial_ok
              [[x03; x01; x41; x01; xbb]]
              {| connCnt := 41; nextLogConnCnt := logCntDelta |})
    as (body & tail & _ & _ & _ & _ & H); [simpl; lia | exact H].
Defined.

(** ** AEAD chunk framing *)

Lemma overwrite_prefix (dst src : list byte) :
  (length src <= length dst)%nat ->
  overwrite dst src = src ++ drop (length src) dst.
Proof.
  intros H. unfold overwrite. apply take_ge.
  rewrite length_app, length_drop. lia.
Qed.

Lemma write_at_spec (buf src : list byte) (lo : nat) :
  (lo + length src <= length buf)%nat ->
  write_at buf lo src = take lo buf ++ src ++ drop (lo + length src) buf.
Proof.
  intros H. unfold write_at.
  rewrite overwrite_prefix by (rewrite length_drop; lia).
  by rewrite drop_drop.
Qed.

Lemma slice_0 (buf : list byte) (hi : nat) : slice buf 0 hi = take hi buf.
Proof. unfold slice. by rewrite drop_0, Nat.sub_0_r. Qed.

Section HeaderCodec.
Import Aead.

(** The two header bytes written by [Pack] decode to the payload length
    they were made from. *)
Lemma payload_size_of_header (payload_len : Z) (rest : list byte) :
  0 <= payload_len < 65536 ->
  payload_size_of
    (byte_of_int (Z.shiftr payload_len 8) :: byte_of_int payload_len :: rest)
  = payload_len.
Proof.
  intros H. unfold payload_size_of, getPayloadSizeMask. simpl nth.
  rewrite !int_of_byte_of_int.
  rewrite <- Z.land_assoc. change (Z.land 255 16383) with (Z.ones 8).
  change 255 with (Z.ones 8).
  rewrite !Z.land_ones, Z.shiftr_div_pow2, Z.shiftl_mul_pow2 by lia.
  change (2 ^ 8) with 256.
  rewrite (Z.mod_small (payload_len / 256)) by
    (split; [apply Z.div_pos; lia | apply Z.div_lt_upper_bound; lia]).
  pose proof (Z.div_mod payload_len 256). lia.
Qed.

(** What line 174 computes, for any two header bytes: no bit of the high
    byte is masked off. *)
Lemma payload_size_of_eq (h0 h1 : byte) (rest : list byte) :
  payload_size_of (h0 :: h1 :: rest) = 256 * int_of_byte h0 + int_of_byte h1.
Proof.
  unfold payload_size_of, getPayloadSizeMask. simpl nth.
  pose proof (int_of_byte_range h1) as H1.
  rewrite Z.shiftl_mul_pow2 by lia.
  replace (Z.land (int_of_byte h1) 16383) with (int_of_byte h1); [lia|].
  symmetry. change 16383 with (Z.ones 14). rewrite Z.land_ones by lia.
  apply Z.mod_small. lia.
Qed.

End HeaderCodec.

Section AeadFraming.
Import Aead.

Context {cipher : Type}.
Variable Overhead : nat.
Variable Encrypt : cipher -> list byte -> option (list byte) * cipher.
Variable Decrypt : cipher -> list byte -> option (list byte) * cipher.

(** The contract of the cipher instance: while the encrypting state of the
    sender and the decrypting state of the receiver are in step ([sync]),
    sealing succeeds, adds [Overhead] bytes, and the receiver opens the
    message to the same plaintext; both nonces advance together. *)
Variable sync : cipher -> cipher -> Prop.
Hypothesis seal_open : forall e d p,
  sync e d ->
  exists c e' d',
    Encrypt e p = (Some c, e')
    /\ length c = (length p + Overhead)%nat
    /\ Decrypt d c = (Some p, d')
    /\ sync e' d'.

Local Abbreviation Pack_loop := (Pack_loop Overhead Encrypt).
Local Abbreviation Pack := (Pack Overhead Encrypt).
Local Abbreviation UnPack := (UnPack Overhead Decrypt).
Local Abbreviation UnPack_times := (UnPack_times Overhead Decrypt).

(** One round of the loop of [Pack]. *)
Lemma Pack_loop_step (k : nat) (data : list byte) (plen : Z)
    (buf rd c1 c2 : list byte) (e e1 e2 : cipher) :
  let pl := Z.min plen getPayloadSizeMask in
  0 <= plen ->
  Encrypt e [byte_of_int (Z.shiftr pl 8); byte_of_int pl] = (Some c1, e1) ->
  length c1 = (2 + Overhead)%nat ->
  Encrypt e1 (take (Z.to_nat pl) data) = (Some c2, e2) ->
  length c2 = (Z.to_nat pl + Overhead)%nat ->
  Pack_loop (S k) data plen {| dataBuffer := buf; reader := rd; CipherInst := e |}
  = Pack_loop k data (plen - pl)
      {| dataBuffer := buf ++ c1 ++ c2; reader := rd; CipherInst := e2 |}.
Proof.
  intros pl Hplen He1 Hc1 He2 Hc2. cbn [Aead.Pack_loop CipherInst].
  assert (Hpl : (if plen >? getPayloadSizeMask then getPayloadSizeMask else plen) = pl).
  { unfold pl. destruct (Z.gtb_spec plen getPayloadSizeMask); lia. }
  rewrite Hpl.
  set (n := (Z.to_nat pl + Overhead)%nat).
  assert (Hhdr : slice (<[1%nat:=byte_of_int pl]>
                          (<[0%nat:=byte_of_int (Z.shiftr pl 8)]>
                             (make (2 + Overhead + Z.to_nat pl + Overhead)))) 0 2
                 = [byte_of_int (Z.shiftr pl 8); byte_of_int pl]).
  { reflexivity. }
  rewrite Hhdr, He1. rewrite slice_0, He2.
  unfold buffer_write, set_cipher. simpl dataBuffer. simpl reader. simpl CipherInst.
  do 2 f_equal.
  set (pb := <[1%nat:=_]> _).
  assert (Hlen : length pb = (2 + Overhead + n)%nat).
  { unfold pb, make. rewrite !length_insert, length_replicate. lia. }
  rewrite (overwrite_prefix pb c1) by lia.
  rewrite write_at_spec; rewrite ?length_app, ?length_drop; try lia.
  rewrite take_app_length' by lia.
  rewrite drop_ge; [by rewrite app_nil_r|].
  rewrite length_app, length_drop. lia.
Qed.

(** One call of [UnPack] on a stream that starts with a sealed header and
    a sealed payload. *)
Lemma UnPack_chunk (p c1 c2 buf rest : list byte) (d d1 d2 : cipher) :
  let pl := Z.of_nat (length p) in
  pl < 65536 ->
  Decrypt d c1 = (Some [byte_of_int (Z.shiftr pl 8); byte_of_int pl], d1) ->
  length c1 = (2 + Overhead)%nat ->
  Decrypt d1 c2 = (Some p, d2) ->
  length c2 = (length p + Overhead)%nat ->
  UnPack {| dataBuffer := buf; reader := c1 ++ c2 ++ rest; CipherInst := d |}
  = (None, {| dataBuffer := buf ++ p; reader := rest; CipherInst := d2 |}).
Proof.
  intros pl Hpl Hd1 Hc1 Hd2 Hc2. unfold Aead.UnPack. simpl reader.
  unfold ReadFull at 1.
  destruct (Nat.ltb_spec (length (c1 ++ c2 ++ rest)) (2 + Overhead));
    [rewrite length_app in *; lia|].
  rewrite take_app_length', drop_app_length' by lia.
  unfold set_reader, set_cipher. simpl. rewrite Hd1.
  rewrite (overwrite_prefix c1) by (simpl; lia).
  simpl app. rewrite payload_size_of_header by lia.
  replace (Z.to_nat pl) with (length p) by (unfold pl; lia).
  unfold ReadFull.
  destruct (Nat.ltb_spec (length (c2 ++ rest)) (length p + Overhead));
    [rewrite length_app in *; lia|].
  rewrite take_app_length', drop_app_length' by lia.
  rewrite Hd2. unfold buffer_write. simpl.
  do 3 f_equal.
  rewrite slice_0, overwrite_prefix by lia. apply take_app_length.
Qed.

(** Sending with [k] rounds of the loop and receiving with [k] calls of
    [UnPack]: the receiver accumulates one prefix of the packet per chunk. *)
Lemma Pack_loop_UnPack_times (k : nat) (data : list byte) :
  forall (plen : Z) (sbuf srd : list byte) (e d : cipher),
    sync e d -> 0 <= plen <= Z.of_nat (length data) ->
    exists stream e' d',
      Pack_loop k data plen {| dataBuffer := sbuf; reader := srd; CipherInst := e |}
      = (None, {| dataBuffer := sbuf ++ stream; reader := srd; CipherInst := e' |})
      /\ sync e' d'
      /\ forall rbuf rest,
          UnPack_times k
            {| dataBuffer := rbuf; reader := stream ++ rest; CipherInst := d |}
          = (None, {| dataBuffer := rbuf ++ carried data (chunk_lens k plen);
                      reader := rest; CipherInst := d' |}).
Proof.
  induction k as [|k IH]; intros plen sbuf srd e d Hsync Hplen.
  - exists [], e, d. simpl. rewrite app_nil_r. split; [done|]. split; [done|].
    intros rbuf rest. unfold carried. simpl. by rewrite app_nil_r.
  - set (pl := Z.min plen getPayloadSizeMask).
    assert (Hpl : 0 <= pl <= 16383 /\ pl <= plen)
      by (unfold pl, getPayloadSizeMask; lia).
    set (p := take (Z.to_nat pl) data).
    assert (Hp : length p = Z.to_nat pl) by (unfold p; rewrite length_take; lia).
    destruct (seal_open e d [byte_of_int (Z.shiftr pl 8); byte_of_int pl] Hsync)
      as (c1 & e1 & d1 & He1 & Hc1 & Hd1 & Hsync1).
    destruct (seal_open e1 d1 p Hsync1) as (c2 & e2 & d2 & He2 & Hc2 & Hd2 & Hsync2).
    destruct (IH (plen - pl) (sbuf ++ c1 ++ c2) srd e2 d2 Hsync2 ltac:(lia))
      as (stream & e' & d' & Hpack & Hsync' & Hunpack).
    exists (c1 ++ c2 ++ stream), e', d'. split; [|split; [done|]].
    + rewrite (Pack_loop_step k data plen sbuf srd c1 c2 e e1 e2);
        fold pl; fold p; try done; try lia.
      rewrite Hpack. by rewrite <- !app_assoc.
    + intros rbuf rest. cbn [Aead.UnPack_times].
      rewrite <- !app_assoc.
      rewrite (UnPack_chunk p c1 c2 rbuf (stream ++ rest) d d1 d2);
        rewrite ?Hp, ?Z2Nat.id; try done; try lia.
      rewrite Hunpack. cbn [chunk_lens]. fold pl. unfold carried. cbn [map concat].
      fold p. by rewrite <- app_assoc.
Qed.

(** [Pack] followed by one [UnPack] per chunk, for any packet. *)
Lemma Pack_UnPack_carried (data : list byte) (e d : cipher) :
  sync e d ->
  let n := Z.of_nat (length data) in
  exists (stream : list byte) (e' d' : cipher),
    Pack data (sender e)
    = (None, {| dataBuffer := stream; reader := []; CipherInst := e' |})
    /\ UnPack_times (chunk_num_of n) (receiver stream d)
       = (None, {| dataBuffer := carried data (chunk_lens (chunk_num_of n) n);
                   reader := []; CipherInst := d' |}).
Proof.
  intros Hsync n.
  destruct (Pack_loop_UnPack_times (chunk_num_of n) data n [] [] e d Hsync ltac:(lia))
    as (stream & e' & d' & Hpack & _ & Hunpack).
  exists stream, e', d'. split; [exact Hpack|].
  specialize (Hunpack [] []). rewrite app_nil_r in Hunpack. exact Hunpack.
Qed.

(** X1: with a cipher that keeps its contract, a packet of at most
    [0x3FFF] bytes that is packed and then unpacked, one [UnPack] per
    chunk, comes back unchanged. *)
Lemma Pack_UnPack_one_chunk (data : list byte) (e d : cipher) :
  sync e d ->
  Z.of_nat (length data) <= getPayloadSizeMask ->
  exists (stream : list byte) (e' d' : cipher),
    Pack data (sender e)
    = (None, {| dataBuffer := stream; reader := []; CipherInst := e' |})
    /\ UnPack_times (chunk_num_of (Z.of_nat (length data))) (receiver stream d)
       = (None, {| dataBuffer := data; reader := []; CipherInst := d' |}).
Proof.
  intros Hsync Hlen.
  destruct (Pack_UnPack_carried data e d Hsync) as (stream & e' & d' & Hp & Hu).
  exists stream, e', d'. split; [exact Hp|]. rewrite Hu. do 3 f_equal.
  unfold chunk_num_of, getPayloadSizeMask in *.
  destruct data as [|b data].
  - reflexivity.
  - set (n := Z.of_nat (length (b :: data))) in *.
    assert (Hn : 1 <= n) by (unfold n; simpl length; lia).
    replace ((n + 16383 - 1) / 16383) with 1
      by (apply Z.div_unique with (r := n - 1); lia).
    unfold carried. simpl. unfold getPayloadSizeMask.
    rewrite Z.min_l by lia. unfold n. rewrite Nat2Z.id, app_nil_r.
    apply (take_ge (b :: data)). lia.
Qed.

(** C1, at the packet of 16383 zero bytes followed by a one: [Pack] emits
    two chunks (the ceiling of 16384/16383), and the second chunk carries
    the first byte of the packet again instead of its last byte, so the
    receiver accumulates 16384 zero bytes, which is not the packet. *)
Theorem Pack_UnPack_second_chunk_repeats_prefix (e d : cipher) :
  sync e d ->
  exists (stream : list byte) (e' d' : cipher),
    Pack two_chunk_packet (sender e)
    = (None, {| dataBuffer := stream; reader := []; CipherInst := e' |})
    /\ chunk_num_of (Z.of_nat (length two_chunk_packet)) = 2%nat
    /\ UnPack_times 2 (receiver stream d)
       = (None, {| dataBuffer := zeros (getPayloadSizeMask + 1); reader := [];
                   CipherInst := d' |})
    /\ zeros (getPayloadSizeMask + 1) <> two_chunk_packet.
Proof.
  intros Hsync.
  destruct (Pack_UnPack_carried two_chunk_packet e d Hsync)
    as (stream & e' & d' & Hp & Hu).
  assert (Hn : chunk_num_of (Z.of_nat (length two_chunk_packet)) = 2%nat)
    by (vm_compute; reflexivity).
  assert (Hc : carried two_chunk_packet
                 (chunk_lens 2 (Z.of_nat (length two_chunk_packet)))
               = zeros (getPayloadSizeMask + 1))
    by (vm_compute; reflexivity).
  exists stream, e', d'. split; [exact Hp|]. split; [exact Hn|]. split.
  - rewrite Hn, Hc in Hu. exact Hu.
  - intros H.
    apply (f_equal (fun l => l !! Z.to_nat getPayloadSizeMask)) in H.
    vm_compute in H. discriminate.
Qed.

End AeadFraming.

(** The number of chunks is the ceiling of [n / 0x3FFF], and no chunk
    carries more than [0x3FFF] bytes. *)
Lemma chunk_num_of_ceiling (n : Z) :
  0 <= n ->
  let k := Z.of_nat (Aead.chunk_num_of n) in
  (k - 1) * Aead.getPayloadSizeMask < n <= k * Aead.getPayloadSizeMask.
Proof.
  intros Hn. unfold Aead.chunk_num_of, Aead.getPayloadSizeMask. cbv zeta.
  assert (0 <= (n + 16383 - 1) / 16383) by (apply Z.div_pos; lia).
  rewrite Z2Nat.id by lia.
  pose proof (Z.div_mod (n + 16383 - 1) 16383 ltac:(lia)) as Hdm.
  pose proof (Z.mod_pos_bound (n + 16383 - 1) 16383 ltac:(lia)). lia.
Qed.

Lemma chunk_lens_bound (k : nat) :
  forall n, 0 <= n -> length (Aead.chunk_lens k n) = k
    /\ Forall (fun l => 0 <= l <= Aead.getPayloadSizeMask) (Aead.chunk_lens k n).
Proof.
  induction k as [|k IH]; intros n Hn; simpl.
  - split; [reflexivity | constructor].
  - destruct (IH (n - Z.min n Aead.getPayloadSizeMask) ltac:(lia)) as [Hl Hf].
    split; [by rewrite Hl|]. constructor; [|exact Hf].
    unfold Aead.getPayloadSizeMask. lia.
Qed.

(** The small AEAD keeps the contract. *)
Lemma Toy_flip_flip (b : byte) : Aead.Toy.flip (Aead.Toy.flip b) = b.
Proof. destruct b; reflexivity. Qed.

Lemma Toy_seal_open (e d : nat) (p : list byte) :
  e = d ->
  exists c e' d',
    Aead.Toy.Encrypt e p = (Some c, e')
    /\ length c = (length p + Aead.Toy.Overhead)%nat
    /\ Aead.Toy.Decrypt d c = (Some p, d')
    /\ e' = d'.
Proof.
  intros <-. exists (map Aead.Toy.flip p ++ Aead.Toy.tag e), (S e), (S e).
  assert (Hlen : length (map Aead.Toy.flip p ++ Aead.Toy.tag e)
                 = (length p + Aead.Toy.Overhead)%nat).
  { unfold Aead.Toy.tag. by rewrite length_app, length_map, length_replicate. }
  split; [reflexivity|]. split; [exact Hlen|]. split; [|reflexivity].
  unfold Aead.Toy.Decrypt. rewrite Hlen.
  destruct (Nat.ltb_spec (length p + Aead.Toy.Overhead) Aead.Toy.Overhead); [lia|].
  replace (length p + Aead.Toy.Overhead - Aead.Toy.Overhead)%nat
    with (length (map Aead.Toy.flip p)) by (rewrite length_map; lia).
  rewrite drop_app_length, take_app_length, bool_decide_eq_true_2 by reflexivity.
  do 2 f_equal. rewrite map_map. rewrite <- (map_id p) at 2.
  apply map_ext. intros b. apply Toy_flip_flip.
Qed.

Lemma Pack_UnPack_second_chunk_repeats_prefix_witness :
  0%nat = 0%nat
  /\ exists (stream : list byte) (e' d' : nat),
      Aead.Pack Aead.Toy.Overhead Aead.Toy.Encrypt
        Aead.two_chunk_packet (Aead.sender 0%nat)
      = (None, {| Aead.dataBuffer := stream; Aead.reader := [];
                  Aead.CipherInst := e' |})
      /\ Aead.chunk_num_of (Z.of_nat (length Aead.two_chunk_packet)) = 2%nat
      /\ Aead.UnPack_times Aead.Toy.Overhead Aead.Toy.Decrypt 2
           (Aead.receiver stream 0%nat)
         = (None, {| Aead.dataBuffer := Aead.zeros (Aead.getPayloadSizeMask + 1);
                     Aead.reader := []; Aead.CipherInst := d' |})
      /\ Aead.zeros (Aead.getPayloadSizeMask + 1) <> Aead.two_chunk_packet.
Proof.
  split; [reflexivity|].
  apply (Pack_UnPack_second_chunk_repeats_prefix
           Aead.Toy.Overhead Aead.Toy.Encrypt Aead.Toy.Decrypt eq Toy_seal_open
           0%nat 0%nat).
  reflexivity.
Defined.

(** C2, at the decrypted header bytes [0x40 0x00]: the size used for the
    payload read is 16384, above the 14-bit mask, where masking the whole
    sum would give 0; [UnPack] then reads and delivers a 16384-byte
    payload.  The mask only reaches the low byte (see
    [payload_size_of_eq]). *)
Theorem payload_size_exceeds_mask :
  Aead.payload_size_of [x40; x00] = 16384
  /\ Aead.getPayloadSizeMask < Aead.payload_size_of [x40; x00]
  /\ Z.land (Z.shiftl (int_of_byte x40) 8 + int_of_byte x00)
       Aead.getPayloadSizeMask = 0
  /\ Aead.UnPack Aead.Toy.Overhead Aead.Toy.Decrypt
       (Aead.receiver
          (Aead.Toy.seal 0 [x40; x00] ++ Aead.Toy.seal 1 (Aead.zeros 16384))
          0%nat)
     = (None, {| Aead.dataBuffer := Aead.zeros 16384; Aead.reader := [];
                 Aead.CipherInst := 2%nat |}).
Proof.
  split; [reflexivity|]. split; [reflexivity|]. split; [reflexivity|].
  vm_compute. reflexivity.
Qed.

(** ** The request decoder *)

(** [io.ReadFull] sees the connection as one byte stream: how the bytes
    are cut into reads does not show. *)
Lemma ReadFull_spec (conn : transport) :
  forall n,
    (ReadFull conn n).1
    = (if (n <=? length (concat conn))%nat then inl (take n (concat conn))
       else inr ErrRead)
    /\ concat (ReadFull conn n).2 = drop n (concat conn).
Proof.
  induction conn as [|seg rest IH]; intros [|n].
  - done.
  - done.
  - done.
  - cbn [ReadFull concat]. remember (S n) as m eqn:Hm.
    destruct (Nat.ltb_spec (length seg) m) as [Hlt | Hge].
    + destruct (IH (m - length seg)%nat) as [IH1 IH2].
      destruct (ReadFull rest (m - length seg)) as [[bs | err] conn'];
        cbn [fst snd] in *; rewrite length_app.
      * destruct (Nat.leb_spec (m - length seg) (length (concat rest)));
          [|discriminate].
        injection IH1 as ->.
        destruct (Nat.leb_spec m (length seg + length (concat rest))); [|lia].
        rewrite take_app, drop_app, IH2, (take_ge seg), (drop_ge seg) by lia.
        done.
      * destruct (Nat.leb_spec (m - length seg) (length (concat rest)));
          [discriminate|].
        destruct (Nat.leb_spec m (length seg + length (concat rest))); [lia|].
        rewrite IH2, !drop_ge; rewrite ?length_app; try lia. done.
    + destruct (Nat.eqb_spec (length seg) m) as [Heq | Hne]; cbn [fst snd];
        rewrite length_app;
        (destruct (Nat.leb_spec m (length seg + length (concat rest))); [|lia]).
      * rewrite <- Heq, take_app_length, drop_app_length. done.
      * rewrite take_app_le, drop_app_le by lia. done.
Qed.

Lemma ReadFull_some (conn : transport) (n : nat) (bs rest : list byte) :
  concat conn = bs ++ rest -> length bs = n ->
  exists conn', ReadFull conn n = (inl bs, conn') /\ concat conn' = rest.
Proof.
  intros Hc Hn. destruct (ReadFull_spec conn n) as [H1 H2].
  destruct (ReadFull conn n) as [r conn']. simpl in *.
  exists conn'. rewrite Hc in *.
  destruct (Nat.leb_spec n (length (bs ++ rest))); [|rewrite length_app in *; lia].
  rewrite H1, H2, take_app_length', drop_app_length' by done. done.
Qed.

Lemma ReadFull_equiv (c1 c2 : transport) (n : nat) :
  concat c1 = concat c2 ->
  (ReadFull c1 n).1 = (ReadFull c2 n).1
  /\ concat (ReadFull c1 n).2 = concat (ReadFull c2 n).2.
Proof.
  intros H. destruct (ReadFull_spec c1 n) as [-> ->].
  destruct (ReadFull_spec c2 n) as [-> ->]. by rewrite H.
Qed.

(** X22: [getRequest] of lines 509-565 returns the same result however the
    bytes of the stream are cut into transport reads; in particular the
    same as when they all arrive in one read. *)
Lemma getRequest_cut_independent (IP_String : list byte -> string)
    (c1 c2 : transport) :
  concat c1 = concat c2 ->
  (Server2.getRequest IP_String c1).1 = (Server2.getRequest IP_String c2).1.
Proof.
  intros H. unfold Server2.getRequest.
  destruct (ReadFull_equiv c1 c2 (idType + 1) H) as [Ha Hb].
  destruct (ReadFull c1 (idType + 1)) as [[bs1 | e1] c1'];
    destruct (ReadFull c2 (idType + 1)) as [[bs2 | e2] c2'];
    simpl in Ha, Hb; try discriminate; [|simpl; congruence].
  injection Ha as <-.
  set (buf := write_at (make 269) 0 bs1).
  set (t := Z.land (int_of_byte (nth idType buf x00)) AddrMask).
  assert (Htail : forall reqStart reqEnd b (d1 d2 : transport),
    concat d1 = concat d2 ->
    (match ReadFull d1 (reqEnd - reqStart) with
     | (inr err, conn) => (inr err, conn)
     | (inl bs, conn) =>
         (inl (host_port IP_String (write_at b reqStart bs)
                 (nth idType buf x00) reqEnd), conn)
     end).1
    = (match ReadFull d2 (reqEnd - reqStart) with
       | (inr err, conn) => (inr err, conn)
       | (inl bs, conn) =>
           (inl (host_port IP_String (write_at b reqStart bs)
                   (nth idType buf x00) reqEnd), conn)
       end).1).
  { intros reqStart reqEnd b d1 d2 Hd.
    destruct (ReadFull_equiv d1 d2 (reqEnd - reqStart) Hd) as [Hx _].
    destruct (ReadFull d1 (reqEnd - reqStart)) as [[x1 | x1] d1'];
      destruct (ReadFull d2 (reqEnd - reqStart)) as [[x2 | x2] d2'];
      simpl in Hx; try discriminate; simpl; congruence. }
  destruct (t =? typeIPv4); [by apply Htail|].
  destruct (t =? typeIPv6); [by apply Htail|].
  destruct (t =? typeDm); [|done].
  destruct (ReadFull_equiv c1' c2' (idDmLen + 1 - (idType + 1)) Hb) as [Hc Hd].
  destruct (ReadFull c1' (idDmLen + 1 - (idType + 1))) as [[l1 | e1] c1''];
    destruct (ReadFull c2' (idDmLen + 1 - (idType + 1))) as [[l2 | e2] c2''];
    simpl in Hc, Hd; try discriminate; [|simpl; congruence].
  injection Hc as <-. by apply Htail.
Qed.

Lemma lor_shiftl_8 (a b : Z) :
  0 <= a < 256 -> 0 <= b -> Z.lor a (Z.shiftl b 8) = a + 256 * b.
Proof.
  intros Ha Hb.
  assert (Hland : Z.land a (Z.shiftl b 8) = 0).
  { apply Z.bits_inj'. intros n Hn.
    rewrite Z.land_spec, Z.bits_0, Z.shiftl_spec by lia.
    destruct (Z.lt_ge_cases n 8) as [Hlt | Hge].
    - rewrite (Z.testbit_neg_r b) by lia. apply andb_false_r.
    - destruct (Z.eq_dec a 0) as [-> | Hnz]; [by rewrite Z.bits_0|].
      rewrite (Z.bits_above_log2 a n); [done | lia |].
      apply Z.lt_le_trans with 8; [|lia].
      apply Z.log2_lt_pow2; lia. }
  rewrite <- Z.lxor_lor, <- Z.add_nocarry_lxor by exact Hland.
  rewrite Z.shiftl_mul_pow2 by lia. lia.
Qed.

Lemma BigEndian_Uint16_bytes (port : Z) :
  0 <= port <= 65535 ->
  BigEndian_Uint16 [byte_of_int (Z.shiftr port 8); byte_of_int port] = port.
Proof.
  intros H. unfold BigEndian_Uint16. simpl nth.
  pose proof (int_of_byte_range (byte_of_int port)).
  pose proof (int_of_byte_range (byte_of_int (Z.shiftr port 8))).
  rewrite lor_shiftl_8 by lia.
  rewrite !int_of_byte_of_int. change 255 with (Z.ones 8).
  rewrite !Z.land_ones, Z.shiftr_div_pow2 by lia. change (2 ^ 8) with 256.
  rewrite (Z.mod_small (port / 256)) by
    (split; [apply Z.div_pos; lia | apply Z.div_lt_upper_bound; lia]).
  pose proof (Z.div_mod port 256). lia.
Qed.

Lemma has_colon_bytes (domain : list byte) :
  has_colon (string_of_list_byte domain) = bool_decide (x3a ∈ domain).
Proof.
  induction domain as [|b domain IH].
  - reflexivity.
  - change (string_of_list_byte (b :: domain))
      with (String (ascii_of_byte b) (string_of_list_byte domain)).
    cbn [has_colon]. rewrite IH.
    destruct (decide (b = x3a)) as [-> | Hne].
    + rewrite (bool_decide_eq_true_2 (x3a ∈ x3a :: domain)) by left.
      reflexivity.
    + replace (Ascii.eqb (ascii_of_byte b) ":") with false
        by (destruct b; try reflexivity; congruence).
      apply bool_decide_ext. rewrite elem_of_cons.
      split; [by right | intros [H | H]; [congruence | done]].
Qed.

(** The request buffer of [getRequest] once a domain request has been read
    into it. *)
Lemma domain_buffer (t l : byte) (body : list byte) :
  (length body <= 257)%nat ->
  write_at (write_at (write_at (make 269) 0 [t]) (idType + 1) [l]) idDm0 body
  = t :: l :: body ++ replicate (267 - length body) x00.
Proof.
  intros H.
  change (write_at (write_at (make 269) 0 [t]) (idType + 1) [l])
    with (t :: l :: replicate 267 x00).
  rewrite write_at_spec
    by (cbn [length]; rewrite length_replicate; unfold idDm0; lia).
  unfold idDm0. cbn [take drop Nat.add app]. by rewrite drop_replicate.
Qed.

(** C5 (amended): for a well-formed domain request (low four bits of the
    address type equal to 3, a length byte, that many domain bytes, a
    big-endian port), however its bytes are cut into reads, [getRequest]
    returns the domain bytes verbatim, a colon and the port in decimal
    when no domain byte is a colon; when one is, [net.JoinHostPort] puts
    the domain in brackets. *)
Theorem getRequest_domain (IP_String : list byte -> string) (t : byte)
    (domain : list byte) (port : Z) (conn : transport) (extra : list byte) :
  Z.land (int_of_byte t) AddrMask = typeDm ->
  (length domain <= 255)%nat ->
  0 <= port <= 65535 ->
  concat conn = domain_request t domain port ++ extra ->
  (Server2.getRequest IP_String conn).1
  = inl (if bool_decide (x3a ∈ domain)
         then ("[" ++ string_of_list_byte domain ++ "]:" ++ Itoa port)%string
         else (string_of_list_byte domain ++ ":" ++ Itoa port)%string).
Proof.
  intros Ht Hlen Hport Hconn.
  set (l := byte_of_int (Z.of_nat (length domain))).
  set (body := domain ++ [byte_of_int (Z.shiftr port 8); byte_of_int port]).
  assert (Hl : Z.to_nat (int_of_byte l) = length domain).
  { unfold l. rewrite int_of_byte_of_int. change 255 with (Z.ones 8).
    rewrite Z.land_ones, Z.mod_small by (change (2 ^ 8) with 256; lia). lia. }
  assert (Hbody : length body = (length domain + 2)%nat)
    by (unfold body; rewrite length_app; simpl; lia).
  unfold Server2.getRequest.
  destruct (ReadFull_some conn (idType + 1) [t] (l :: body ++ extra))
    as (c1 & -> & Hc1); [by rewrite Hconn | done |].
  assert (Hnth : nth idType (write_at (make 269) 0 [t]) x00 = t) by reflexivity.
  rewrite Hnth, Ht. cbn [Z.eqb typeDm typeIPv4 typeIPv6 Pos.eqb].
  destruct (ReadFull_some c1 (idDmLen + 1 - (idType + 1)) [l] (body ++ extra))
    as (c2 & -> & Hc2); [done | done |].
  assert (Hnth1 : nth idDmLen (write_at (write_at (make 269) 0 [t]) (idType + 1) [l]) x00
                  = l) by reflexivity.
  rewrite Hnth1, Hl.
  destruct (ReadFull_some c2 (idDm0 + length domain + lenDmBase - idDm0) body extra)
    as (c3 & -> & Hc3); [done | unfold idDm0, lenDmBase; lia |].
  cbn [fst]. f_equal.
  rewrite domain_buffer by lia.
  unfold host_port. rewrite Ht. cbn [Z.eqb typeDm typeIPv4 typeIPv6 Pos.eqb].
  cbn [nth idDmLen]. rewrite Hl.
  assert (Hhost : slice (t :: l :: body ++ replicate (267 - length body) x00)
                    idDm0 (idDm0 + length domain) = domain).
  { unfold slice, idDm0, body. cbn [drop].
    replace (2 + length domain - 2)%nat with (length domain) by lia.
    rewrite <- !app_assoc. apply take_app_length. }
  assert (Hport' : slice (t :: l :: body ++ replicate (267 - length body) x00)
                     (idDm0 + length domain + lenDmBase - 2)
                     (idDm0 + length domain + lenDmBase)
                   = [byte_of_int (Z.shiftr port 8); byte_of_int port]).
  { unfold slice, idDm0, lenDmBase, body.
    replace (2 + length domain + 2 - 2)%nat with (S (S (length domain))) by lia.
    replace (2 + length domain + 2 - S (S (length domain)))%nat with 2%nat by lia.
    cbn [drop]. rewrite <- !app_assoc, drop_app_length. reflexivity. }
  rewrite Hhost, Hport', BigEndian_Uint16_bytes by lia.
  unfold JoinHostPort. rewrite has_colon_bytes.
  by destruct (bool_decide (x3a ∈ domain)).
Qed.

(** The scenario of the specification: [example.com], port 443, arriving
    in three reads. *)
Lemma getRequest_domain_witness :
  Z.land (int_of_byte x03) AddrMask = typeDm
  /\ (length (list_byte_of_string "example.com") <= 255)%nat
  /\ 0 <= 443 <= 65535
  /\ (Server2.getRequest no_ip
        [[x03; x0b]; list_byte_of_string "example";
         list_byte_of_string ".com" ++ [x01; xbb; x16; x03]]).1
     = inl "example.com:443"%string.
Proof.
  split; [reflexivity|]. split; [vm_compute; lia|]. split; [lia|].
  apply (getRequest_domain no_ip x03 (list_byte_of_string "example.com") 443
           [[x03; x0b]; list_byte_of_string "example";
            list_byte_of_string ".com" ++ [x01; xbb; x16; x03]] [x16; x03]).
  - reflexivity.
  - vm_compute; lia.
  - lia.
  - reflexivity.
Defined.

(** C5 as written fails: the one-byte domain [":"] with port 443 is well
    formed, and the result is not the domain, a colon and the port. *)
Lemma getRequest_colon_domain_bracketed :
  concat [[x03; x01; x3a; x01; xbb]] = domain_request x03 [x3a] 443
  /\ (Server2.getRequest no_ip [[x03; x01; x3a; x01; xbb]]).1
     = inl "[:]:443"%string
  /\ (Server2.getRequest no_ip [[x03; x01; x3a; x01; xbb]]).1
     <> inl (string_of_list_byte [x3a] ++ ":" ++ Itoa 443)%string.
Proof.
  split; [reflexivity|]. split; [reflexivity|]. vm_compute. discriminate.
Qed.

(** C4, at a domain request whose first transport read brings only the
    address-type byte: the copy of [getRequest] at lines 44-112 does not
    read on; it indexes the length byte that has not arrived and panics. *)
Theorem getRequest_one_read_panics (IP_String : list byte -> string)
    (UnPack : list byte -> list byte) (seg : list byte) (rest : transport)
    (t : byte) :
  (length seg <= 2048)%nat ->
  UnPack seg = [t] ->
  Z.land (int_of_byte t) AddrMask = typeDm ->
  (Server1.getRequest IP_String UnPack (seg :: rest)).1
  = Panics "index out of range".
Proof.
  intros Hlen Hdata Ht. unfold Server1.getRequest, Read.
  destruct (Nat.leb_spec (length seg) 2048); [|lia].
  rewrite Hdata. cbn [Server1.in_bounds length idType Nat.add Nat.leb negb].
  cbn [Server1.index lookup list_lookup idType]. rewrite Ht. reflexivity.
Qed.

(** The same request, with a cipher that leaves the bytes as they are: cut
    after the first byte the first copy panics, in one piece it decodes,
    and the copy at lines 509-565 decodes it either way. *)
Lemma getRequest_one_read_panics_witness :
  (length [x03] <= 2048)%nat
  /\ (fun bs : list byte => bs) [x03] = [x03]
  /\ Z.land (int_of_byte x03) AddrMask = typeDm
  /\ (Server1.getRequest no_ip (fun bs => bs)
        [[x03]; x0b :: list_byte_of_string "example.com" ++ [x01; xbb]]).1
     = Panics "index out of range"
  /\ (Server1.getRequest no_ip (fun bs => bs)
        [x03 :: x0b :: list_byte_of_string "example.com" ++ [x01; xbb]]).1
     = Returns (inl "example.com:443"%string)
  /\ (Server2.getRequest no_ip
        [[x03]; x0b :: list_byte_of_string "example.com" ++ [x01; xbb]]).1
     = inl "example.com:443"%string.
Proof.
  split; [simpl; lia|]. split; [reflexivity|]. split; [reflexivity|].
  split; [|split; reflexivity].
  apply (getRequest_one_read_panics no_ip (fun bs => bs) [x03]
           [x0b :: list_byte_of_string "example.com" ++ [x01; xbb]] x03);
    [simpl; lia | reflexivity | reflexivity].
Defined.

(** ** The password manager *)

Section PasswdManagerFacts.
Import PasswdManager.

Lemma bound_on_lookup (port : string) (w : world) (ln : nat) (p : string) :
  bound_on port w !! ln = Some p <-> listening w !! ln = Some p /\ p = port.
Proof. unfold bound_on. by rewrite map_lookup_filter_Some. Qed.

(** [net.Listen] succeeds on a port that no socket listens on. *)
Lemma Listen_free (port : string) (w : world) :
  (forall ln, listening w !! ln <> Some port) ->
  Listen port w
  = Some (next_socket w,
          {| udp := udp w; portListener := portListener w;
             udpListener := udpListener w; config := config w;
             listening := <[next_socket w := port]> (listening w);
             next_socket := S (next_socket w); closes := closes w;
             started := started w |}).
Proof.
  intros Hfree. unfold Listen.
  rewrite bool_decide_eq_false_2; [done|].
  intros (ln & p & Hln & ->). by apply (Hfree ln).
Qed.

(** C7: for a registered port, [updatePortPasswd] with the password on
    record changes nothing (no socket is closed, no server loop is
    started, the registry is as before); with another password it closes
    the old listener of the port and nothing else, starts one server loop,
    and once that loop has bound its socket there is exactly one listener
    on the port, the new one, registered under the new password. *)
Theorem updatePortPasswd_registered (port passwd : string) (w : world)
    (pl : PortListener) :
  sockets_ok w ->
  get port w = Some pl ->
  (passwd = password pl -> updatePortPasswd port passwd w = w)
  /\ (passwd <> password pl ->
      let w1 := updatePortPasswd port passwd w in
      closes w1 = closes w ++ [listener pl]
      /\ started w1 = started w ++ [(port, passwd)]
      /\ portListener w1 = portListener w
      /\ exists w2,
          run port passwd w1 = Some w2
          /\ bound_on port w2 = {[ next_socket w := port ]}
          /\ get port w2
             = Some {| password := passwd; listener := next_socket w |}
          /\ closes w2 = closes w ++ [listener pl]).
Proof.
  intros [Hfresh Hreg] Hget. unfold updatePortPasswd. rewrite Hget. split.
  - intros ->. by rewrite bool_decide_eq_true_2.
  - intros Hne. rewrite bool_decide_eq_false_2 by congruence. cbv zeta.
    split; [done|]. split; [done|]. split; [done|].
    unfold run. rewrite Listen_free.
    + eexists. split; [reflexivity|]. split; [|split; [|done]].
      * apply map_eq. intros ln.
        destruct (bound_on port _ !! ln) as [p|] eqn:E.
        -- apply bound_on_lookup in E as [E ->]. simpl in E.
           destruct (decide (ln = next_socket w)) as [-> | Hln].
           ++ by rewrite lookup_singleton_eq.
           ++ rewrite lookup_insert_ne in E by done.
              apply lookup_delete_Some in E as [Hd E].
              by specialize (Hreg port pl ln Hget E).
        -- destruct (decide (ln = next_socket w)) as [-> | Hln].
           ++ assert (bound_on port
                        (add port passwd (next_socket w)
                           {| udp := udp w; portListener := portListener w;
                              udpListener := udpListener w; config := config w;
                              listening := <[next_socket w:=port]>
                                             (delete (listener pl) (listening w));
                              next_socket := S (next_socket w);
                              closes := closes w ++ [listener pl];
                              started := started w ++ [(port, passwd)] |})
                      !! next_socket w = Some port) as Hin.
              { apply bound_on_lookup. simpl. by rewrite lookup_insert_eq. }
              simpl in Hin, E. congruence.
           ++ by rewrite lookup_singleton_ne.
      * unfold get, add. simpl. by rewrite lookup_insert_eq.
    + intros ln. simpl. intros Hln.
      apply lookup_delete_Some in Hln as [Hd Hln].
      by specialize (Hreg port pl ln Hget Hln).
Qed.

Lemma serving_8388_ok (u : bool) : sockets_ok (serving_8388 u).
Proof.
  split.
  - intros ln p H. simpl in H.
    apply lookup_singleton_Some in H as [<- _]. simpl. lia.
  - intros port pl ln Hp Hl. simpl in Hp, Hl.
    apply lookup_singleton_Some in Hp as [<- <-].
    apply lookup_singleton_Some in Hl as [<- _]. reflexivity.
Qed.

Lemma updatePortPasswd_registered_witness :
  sockets_ok (serving_8388 false)
  /\ get "8388" (serving_8388 false)
     = Some {| password := "secret"; listener := 0 |}
  /\ updatePortPasswd "8388" "secret" (serving_8388 false) = serving_8388 false
  /\ closes (updatePortPasswd "8388" "changed" (serving_8388 false)) = [0%nat].
Proof.
  split; [apply serving_8388_ok|]. split; [reflexivity|].
  destruct (updatePortPasswd_registered "8388" "secret" (serving_8388 false)
              {| password := "secret"; listener := 0 |}
              (serving_8388_ok false) eq_refl) as [Hsame _].
  destruct (updatePortPasswd_registered "8388" "changed" (serving_8388 false)
              {| password := "secret"; listener := 0 |}
              (serving_8388_ok false) eq_refl) as [_ Hdiff].
  split; [apply Hsame; reflexivity|].
  destruct Hdiff as [Hc _]; [discriminate | exact Hc].
Defined.

End PasswdManagerFacts.

Section ReloadFacts.
Import PasswdManager.

(** [updatePortPasswd] leaves the registry and the flags alone, and opens
    no socket. *)
Lemma updatePortPasswd_frame (port passwd : string) (w : world) :
  portListener (updatePortPasswd port passwd w) = portListener w
  /\ udp (updatePortPasswd port passwd w) = udp w
  /\ forall ln p,
      listening (updatePortPasswd port passwd w) !! ln = Some p ->
      listening w !! ln = Some p.
Proof.
  unfold updatePortPasswd.
  destruct (get port w) as [pl|]; [destruct (bool_decide _)|]; simpl;
    repeat split; try done.
  intros ln p H. by apply lookup_delete_Some in H as [_ H].
Qed.

Lemma update_loop_frame (todo : list (string * string)) :
  forall (w : world) (old : gmap string string),
    portListener (update_loop todo (w, old)).1 = portListener w
    /\ udp (update_loop todo (w, old)).1 = udp w
    /\ (forall ln p,
          listening (update_loop todo (w, old)).1 !! ln = Some p ->
          listening w !! ln = Some p)
    /\ (forall port,
          (update_loop todo (w, old)).2 !! port
          = if bool_decide (port ∈ todo.*1) then None else old !! port).
Proof.
  induction todo as [|[port passwd] todo IH]; intros w old.
  - simpl. repeat split; done.
  - unfold update_loop in *. cbn [foldl fst snd].
    destruct (IH (updatePortPasswd port passwd w) (delete port old))
      as (Hreg & Hudp & Hlis & Hold).
    destruct (updatePortPasswd_frame port passwd w) as (Hreg1 & Hudp1 & Hlis1).
    rewrite Hreg, Hudp. repeat split; try done.
    + intros ln p H. apply Hlis1, Hlis, H.
    + intros q. rewrite Hold. cbn [fmap list_fmap fst].
      destruct (decide (q = port)) as [-> | Hq].
      * rewrite (bool_decide_eq_true_2 (port ∈ port :: todo.*1)) by left.
        destruct (bool_decide _); [done | apply lookup_delete_eq].
      * rewrite lookup_delete_ne by done.
        apply (f_equal (fun b : bool => if b then None else old !! q)).
        apply bool_decide_ext. rewrite elem_of_cons.
        split; [by right | intros [H | H]; [congruence | done]].
Qed.

(** [del] when the UDP relay is off. *)
Lemma del_no_udp (port : string) (w : world) :
  udp w = false ->
  udp (del port w) = false
  /\ portListener (del port w) = delete port (portListener w)
  /\ (forall ln p, listening (del port w) !! ln = Some p ->
                   listening w !! ln = Some p)
  /\ (forall pl, get port w = Some pl ->
                 listening (del port w) !! listener pl = None).
Proof.
  intros Hudp. unfold del.
  destruct (get port w) as [pl|] eqn:Hget; rewrite ?Hudp; simpl; rewrite ?Hudp.
  - repeat split; try done.
    + intros ln p H. simpl in H. by apply lookup_delete_Some in H as [_ H].
    + intros pl' [= <-]. simpl. apply lookup_delete_eq.
  - repeat split; try done. symmetry. by apply delete_id.
Qed.

Lemma del_loop_no_udp (todo : list (string * string)) :
  forall w : world,
    udp w = false ->
    (forall port,
        portListener (del_loop todo w) !! port
        = if bool_decide (port ∈ todo.*1) then None else portListener w !! port)
    /\ (forall ln p, listening (del_loop todo w) !! ln = Some p ->
                     listening w !! ln = Some p)
    /\ (forall port pl, port ∈ todo.*1 -> get port w = Some pl ->
                        listening (del_loop todo w) !! listener pl = None).
Proof.
  induction todo as [|[port passwd] todo IH]; intros w Hudp.
  - simpl. repeat split; try done.
    intros port pl H. by apply elem_of_nil in H.
  - unfold del_loop in *. cbn [foldl].
    destruct (del_no_udp port w Hudp) as (Hudp1 & Hreg1 & Hlis1 & Hcl1).
    destruct (IH (del port w) Hudp1) as (Hreg & Hlis & Hcl).
    repeat split.
    + intros q. rewrite Hreg, Hreg1. cbn [fmap list_fmap fst].
      destruct (decide (q = port)) as [-> | Hq].
      * rewrite (bool_decide_eq_true_2 (port ∈ port :: todo.*1)) by left.
        destruct (bool_decide _); [done | apply lookup_delete_eq].
      * rewrite lookup_delete_ne by done.
        apply (f_equal (fun b : bool => if b then None else portListener w !! q)).
        apply bool_decide_ext. rewrite elem_of_cons.
        split; [by right | intros [H | H]; [congruence | done]].
    + intros ln p H. apply Hlis1, Hlis, H.
    + intros q pl Hq Hget.
      destruct (decide (q = port)) as [-> | Hne].
      * specialize (Hcl1 pl Hget).
        destruct (listening (foldl _ (del port w) todo) !! listener pl) as [p|] eqn:E;
          [|done].
        apply Hlis in E. congruence.
      * apply (Hcl q pl).
        -- cbn [fmap list_fmap fst] in Hq. apply elem_of_cons in Hq as [Hq | Hq];
             [congruence | done].
        -- unfold get in *. by rewrite Hreg1, lookup_delete_ne.
Qed.

Variable range : gmap string string -> list (string * string).
Hypothesis range_perm : forall m, range m ≡ₚ map_to_list m.

Lemma range_keys (m : gmap string string) (port : string) :
  port ∈ (range m).*1 <-> is_Some (m !! port).
Proof.
  rewrite (range_perm m). rewrite list_elem_of_fmap. split.
  - intros ([q v] & -> & H). apply elem_of_map_to_list in H. by exists v.
  - intros [v H]. exists (port, v). split; [done|]. by apply elem_of_map_to_list.
Qed.

(** X21: with the UDP relay off, a reload removes what the new
    configuration omits: every such port of the old configuration has its listener
    closed and its record deleted, and only ports of the new configuration
    remain registered. *)
Lemma updatePasswd_no_udp (newconfig unified : Config) (w : world) :
  udp w = false ->
  unifyPortPassword newconfig = Some unified ->
  (forall port, is_Some (get port w) ->
                is_Some (PortPassword (config w) !! port)) ->
  exists w',
    updatePasswd range (Some newconfig) w = Some w'
    /\ (forall port pl,
          is_Some (PortPassword (config w) !! port) ->
          PortPassword unified !! port = None ->
          get port w = Some pl ->
          get port w' = None /\ listening w' !! listener pl = None)
    /\ (forall port, is_Some (get port w') ->
                     is_Some (PortPassword unified !! port)).
Proof.
  intros Hudp Hunify Hdom. unfold updatePasswd. rewrite Hunify.
  destruct (update_loop_frame (range (PortPassword unified))
              (set_config unified w) (PortPassword (config w)))
    as (Hreg & Hudp1 & Hlis & Hold).
  destruct (update_loop (range (PortPassword unified))
              (set_config unified w, PortPassword (config w)))
    as [w1 old_left] eqn:Hloop.
  cbn [fst snd] in *. simpl in Hreg, Hudp1.
  destruct (del_loop_no_udp (range old_left) w1 ltac:(congruence))
    as (Hreg2 & Hlis2 & Hcl2).
  assert (Hleft : forall port,
             port ∈ (range old_left).*1
             <-> is_Some (PortPassword (config w) !! port)
                 /\ PortPassword unified !! port = None).
  { intros port. rewrite range_keys, Hold.
    destruct (bool_decide_reflect (port ∈ (range (PortPassword unified)).*1))
      as [Hin | Hnin].
    - apply range_keys in Hin. split.
      + by intros [? ?].
      + intros [_ Hnone]. rewrite Hnone in Hin. by destruct Hin.
    - rewrite range_keys in Hnin. split.
      + intros H. split; [done|]. by apply eq_None_not_Some.
      + by intros [H _]. }
  eexists. split; [reflexivity|]. split.
  - intros port pl Hin Hnone Hget.
    assert (Hp : port ∈ (range old_left).*1) by (by apply Hleft).
    split.
    + unfold get. rewrite Hreg2. by rewrite bool_decide_eq_true_2.
    + apply (Hcl2 port pl Hp). unfold get in *. by rewrite Hreg.
  - intros port. unfold get. rewrite Hreg2, Hreg.
    destruct (bool_decide_reflect (port ∈ (range old_left).*1)) as [Hin | Hnin].
    + by intros [? ?].
    + intros Href. specialize (Hdom port Href).
      destruct (PortPassword unified !! port) as [v|] eqn:E; [by exists v|].
      exfalso. apply Hnin, Hleft. done.
Qed.

End ReloadFacts.

(** C8, at the reload scenario of the specification with the UDP relay
    switched on ([-u]): no UDP listener is ever registered, so [del]
    returns at its second test; port 8388, which the new configuration
    omits, stays registered and its socket stays open; no [Close] call is
    made.  With the relay off the same reload removes the port. *)
Theorem updatePasswd_udp_keeps_omitted_port :
  (exists w',
      PasswdManager.updatePasswd map_to_list (Some PasswdManager.config_8389)
        (PasswdManager.serving_8388 true) = Some w'
      /\ PasswdManager.get "8388" w'
         = Some {| PasswdManager.password := "secret"; PasswdManager.listener := 0 |}
      /\ PasswdManager.listening w' !! 0%nat = Some "8388"%string
      /\ PasswdManager.closes w' = [])
  /\ (exists w',
      PasswdManager.updatePasswd map_to_list (Some PasswdManager.config_8389)
        (PasswdManager.serving_8388 false) = Some w'
      /\ PasswdManager.get "8388" w' = None
      /\ PasswdManager.listening w' !! 0%nat = None
      /\ PasswdManager.closes w' = [0%nat]).
Proof.
  split; eexists; (split; [vm_compute; reflexivity|]);
    repeat split; vm_compute; reflexivity.
Qed.

(** * Further properties *)

(** ** AEAD chunk framing *)

Lemma Pack_UnPack_one_chunk_witness :
  0%nat = 0%nat
  /\ Z.of_nat (length [x68; x69]) <= Aead.getPayloadSizeMask
  /\ exists (stream : list byte) (e' d' : nat),
      Aead.Pack Aead.Toy.Overhead Aead.Toy.Encrypt [x68; x69] (Aead.sender 0%nat)
      = (None, {| Aead.dataBuffer := stream; Aead.reader := [];
                  Aead.CipherInst := e' |})
      /\ Aead.UnPack_times Aead.Toy.Overhead Aead.Toy.Decrypt
           (Aead.chunk_num_of (Z.of_nat (length [x68; x69])))
           (Aead.receiver stream 0%nat)
         = (None, {| Aead.dataBuffer := [x68; x69]; Aead.reader := [];
                     Aead.CipherInst := d' |}).
Proof.
  split; [reflexivity|]. split; [vm_compute; discriminate|].
  apply (Pack_UnPack_one_chunk
           Aead.Toy.Overhead Aead.Toy.Encrypt Aead.Toy.Decrypt eq Toy_seal_open
           [x68; x69] 0%nat 0%nat).
  - reflexivity.
  - vm_compute. discriminate.
Defined.

(** The payload lengths of the chunks add up to the packet length when
    there are enough rounds. *)
Lemma chunk_lens_sum (k : nat) :
  forall n, 0 <= n <= Z.of_nat k * Aead.getPayloadSizeMask ->
            foldr Z.add 0 (Aead.chunk_lens k n) = n.
Proof.
  unfold Aead.getPayloadSizeMask.
  induction k as [|k IH]; intros n Hn; cbn [Aead.chunk_lens foldr].
  - lia.
  - unfold Aead.getPayloadSizeMask. rewrite IH; lia.
Qed.

Lemma ReadFull_inl (r bs r' : list byte) (n : nat) :
  Aead.ReadFull r n = (inl bs, r') ->
  length bs = n /\ length r = (n + length r')%nat.
Proof.
  unfold Aead.ReadFull. destruct (Nat.ltb_spec (length r) n); [discriminate|].
  intros [= <- <-]. rewrite length_take, length_drop. lia.
Qed.

Section AeadMore.
Import Aead.

Context {cipher : Type}.
Variable Overhead : nat.
Variable Encrypt : cipher -> list byte -> option (list byte) * cipher.
Variable Decrypt : cipher -> list byte -> option (list byte) * cipher.

(** X3: a call of [UnPack] that returns an error (short read, or a header
    or payload that does not verify) has appended nothing to the output
    buffer. *)
Theorem UnPack_error_keeps_buffer (this this' : ConnAead cipher) (err : error) :
  UnPack Overhead Decrypt this = (Some err, this') ->
  dataBuffer this' = dataBuffer this.
Proof.
  unfold UnPack.
  destruct (ReadFull (reader this) (2 + Overhead)) as [[header | e1] r1];
    [|by intros [= _ <-]].
  cbn [set_reader set_cipher CipherInst reader dataBuffer].
  destruct (Decrypt (CipherInst this) header) as [[plain|] c1]; [|by intros [= _ <-]].
  destruct (ReadFull r1 _) as [[payload | e2] r2]; [|by intros [= _ <-]].
  destruct (Decrypt c1 payload) as [[plain2|] c2]; [|by intros [= _ <-]].
  discriminate.
Qed.

(** X4: a call of [UnPack] that succeeds appends one payload of at most
    65535 bytes to the output buffer and takes exactly the header, the
    payload and their two tags from the reader. *)
Theorem UnPack_success_appends (this this' : ConnAead cipher) :
  UnPack Overhead Decrypt this = (None, this') ->
  exists payload,
    dataBuffer this' = dataBuffer this ++ payload
    /\ Z.of_nat (length payload) <= 65535
    /\ length (reader this)
       = (2 + Overhead + (length payload + Overhead) + length (reader this'))%nat.
Proof.
  unfold UnPack.
  destruct (ReadFull (reader this) (2 + Overhead)) as [[header | e1] r1] eqn:E1;
    [|discriminate].
  apply ReadFull_inl in E1 as [Hh Hr].
  cbn [set_reader set_cipher CipherInst reader dataBuffer].
  destruct (Decrypt (CipherInst this) header) as [[plain|] c1]; [|discriminate].
  assert (Hhdr : length (overwrite header plain) = (2 + Overhead)%nat).
  { unfold overwrite. rewrite length_take, length_app, length_drop. lia. }
  destruct (overwrite header plain) as [|h0 [|h1 hdr']]; [simpl in Hhdr; lia..|].
  assert (Hsize : 0 <= payload_size_of (h0 :: h1 :: hdr') <= 65535).
  { rewrite payload_size_of_eq.
    pose proof (int_of_byte_range h0). pose proof (int_of_byte_range h1). lia. }
  destruct (ReadFull r1 _) as [[payload | e2] r2] eqn:E2; [|discriminate].
  apply ReadFull_inl in E2 as [Hp Hr2].
  destruct (Decrypt c1 payload) as [[plain2|] c2]; [|discriminate].
  intros [= <-]. cbn [buffer_write dataBuffer reader].
  eexists. split; [reflexivity|].
  assert (Hlen : length (slice (overwrite payload plain2) 0
                           (Z.to_nat (payload_size_of (h0 :: h1 :: hdr'))))
                 = Z.to_nat (payload_size_of (h0 :: h1 :: hdr'))).
  { rewrite slice_0. unfold overwrite.
    rewrite !length_take, length_app, length_drop. lia. }
  rewrite Hlen. cbn [set_cipher set_reader reader]. lia.
Qed.

(** X5: [Pack] only appends to the buffer it writes to and leaves the
    reader alone, whether it returns an error or not. *)
Theorem Pack_appends_only (packet_data : list byte) (this : ConnAead cipher) :
  exists added,
    dataBuffer (Pack Overhead Encrypt packet_data this).2 = dataBuffer this ++ added
    /\ reader (Pack Overhead Encrypt packet_data this).2 = reader this.
Proof.
  unfold Pack.
  generalize (chunk_num_of (Z.of_nat (length packet_data))) as k.
  generalize (Z.of_nat (length packet_data)) as plen.
  intros plen k. revert this plen.
  induction k as [|k IH]; intros this plen.
  - exists []. by rewrite app_nil_r.
  - cbn [Pack_loop].
    destruct (Encrypt (CipherInst this) _) as [[c1|] e1];
      [|exists []; by rewrite app_nil_r].
    destruct (Encrypt e1 _) as [[c2|] e2]; [|exists []; by rewrite app_nil_r].
    match goal with
    | |- context [Pack_loop _ _ k _ ?plen' (buffer_write ?t ?b)] =>
        destruct (IH (buffer_write t b) plen') as (added & Hbuf & Hrd);
        exists (b ++ added)
    end.
    rewrite Hbuf, Hrd. cbn [buffer_write set_cipher dataBuffer reader].
    by rewrite <- app_assoc.
Qed.

Variable sync : cipher -> cipher -> Prop.
Hypothesis seal_open : forall e d p,
  sync e d ->
  exists c e' d',
    Encrypt e p = (Some c, e')
    /\ length c = (length p + Overhead)%nat
    /\ Decrypt d c = (Some p, d')
    /\ sync e' d'.

Lemma Pack_loop_length (k : nat) (data : list byte) :
  forall (plen : Z) (sbuf srd : list byte) (e d : cipher),
    sync e d -> 0 <= plen <= Z.of_nat (length data) ->
    exists this',
      Pack_loop Overhead Encrypt k data plen
        {| dataBuffer := sbuf; reader := srd; CipherInst := e |}
      = (None, this')
      /\ Z.of_nat (length (dataBuffer this'))
         = Z.of_nat (length sbuf) + foldr Z.add 0 (chunk_lens k plen)
           + Z.of_nat k * Z.of_nat (2 + Overhead + Overhead).
Proof.
  induction k as [|k IH]; intros plen sbuf srd e d Hsync Hplen.
  - eexists. split; [reflexivity|]. cbn. lia.
  - set (pl := Z.min plen getPayloadSizeMask).
    assert (Hpl : 0 <= pl <= 16383 /\ pl <= plen)
      by (unfold pl, getPayloadSizeMask; lia).
    destruct (seal_open e d [byte_of_int (Z.shiftr pl 8); byte_of_int pl] Hsync)
      as (c1 & e1 & d1 & He1 & Hc1 & _ & Hsync1).
    destruct (seal_open e1 d1 (take (Z.to_nat pl) data) Hsync1)
      as (c2 & e2 & d2 & He2 & Hc2 & _ & Hsync2).
    rewrite length_take in Hc2.
    destruct (IH (plen - pl) (sbuf ++ c1 ++ c2) srd e2 d2 Hsync2 ltac:(lia))
      as (this' & Hpack & Hlen).
    exists this'.
    rewrite (Pack_loop_step Overhead Encrypt k data plen sbuf srd c1 c2 e e1 e2);
      fold pl; try done; try lia.
    split; [exact Hpack|]. rewrite Hlen. cbn [chunk_lens foldr]. fold pl.
    rewrite !length_app, Hc1, Hc2. simpl length. lia.
Qed.

(** X2: with a cipher that keeps its contract, [Pack] succeeds and writes
    the packet length plus, for each of the [ceil(n / 0x3FFF)] chunks, two
    header bytes and two tags. *)
Theorem Pack_stream_length (data : list byte) (e d : cipher) :
  sync e d ->
  exists this',
    Pack Overhead Encrypt data (sender e) = (None, this')
    /\ Z.of_nat (length (dataBuffer this'))
       = Z.of_nat (length data)
         + Z.of_nat (chunk_num_of (Z.of_nat (length data)))
           * Z.of_nat (2 + Overhead + Overhead).
Proof.
  intros Hsync. set (n := Z.of_nat (length data)).
  destruct (Pack_loop_length (chunk_num_of n) data n [] [] e d Hsync ltac:(lia))
    as (this' & Hpack & Hlen).
  exists this'. split; [exact Hpack|]. rewrite Hlen.
  pose proof (chunk_num_of_ceiling n ltac:(lia)) as Hceil. cbv zeta in Hceil.
  rewrite chunk_lens_sum by lia. simpl length. lia.
Qed.

End AeadMore.

(** X6: the two header bytes that [Pack] writes for a payload length decode,
    by the expression of [UnPack], to that length, for every length that
    fits in two bytes. *)
Theorem header_round_trip (payload_len : Z) :
  0 <= payload_len < 65536 ->
  Aead.payload_size_of
    [byte_of_int (Z.shiftr payload_len 8); byte_of_int payload_len]
  = payload_len.
Proof.
  intros H. rewrite payload_size_of_eq, !int_of_byte_of_int.
  change 255 with (Z.ones 8).
  rewrite !Z.land_ones, Z.shiftr_div_pow2 by lia. change (2 ^ 8) with 256.
  rewrite (Z.mod_small (payload_len / 256)) by
    (split; [apply Z.div_pos; lia | apply Z.div_lt_upper_bound; lia]).
  pose proof (Z.div_mod payload_len 256). lia.
Qed.

Lemma header_round_trip_witness :
  0 <= 16383 < 65536
  /\ Aead.payload_size_of [byte_of_int (Z.shiftr 16383 8); byte_of_int 16383]
     = 16383.
Proof. split; [lia|]. apply (header_round_trip 16383). lia. Defined.

Lemma UnPack_error_keeps_buffer_witness :
  Aead.UnPack Aead.Toy.Overhead Aead.Toy.Decrypt
    {| Aead.dataBuffer := [x01]; Aead.reader := [x02; x03]; Aead.CipherInst := 0%nat |}
  = (Some Aead.ErrUnexpectedEOF,
     {| Aead.dataBuffer := [x01]; Aead.reader := []; Aead.CipherInst := 0%nat |})
  /\ Aead.dataBuffer
       {| Aead.dataBuffer := [x01]; Aead.reader := []; Aead.CipherInst := 0%nat |}
     = [x01].
Proof.
  split; [reflexivity|].
  apply (UnPack_error_keeps_buffer Aead.Toy.Overhead Aead.Toy.Decrypt
           {| Aead.dataBuffer := [x01]; Aead.reader := [x02; x03];
              Aead.CipherInst := 0%nat |}
           {| Aead.dataBuffer := [x01]; Aead.reader := []; Aead.CipherInst := 0%nat |}
           Aead.ErrUnexpectedEOF).
  reflexivity.
Defined.

Lemma UnPack_success_appends_witness :
  Aead.UnPack Aead.Toy.Overhead Aead.Toy.Decrypt
    (Aead.receiver (Aead.Toy.seal 0 [x00; x02] ++ Aead.Toy.seal 1 [x68; x69] ++ [x07])
       0%nat)
  = (None, {| Aead.dataBuffer := [x68; x69]; Aead.reader := [x07];
              Aead.CipherInst := 2%nat |})
  /\ exists payload,
      [x68; x69] = [] ++ payload
      /\ Z.of_nat (length payload) <= 65535
      /\ length (Aead.Toy.seal 0 [x00; x02] ++ Aead.Toy.seal 1 [x68; x69] ++ [x07])
         = (2 + Aead.Toy.Overhead + (length payload + Aead.Toy.Overhead)
            + length [x07])%nat.
Proof.
  split; [vm_compute; reflexivity|].
  apply (UnPack_success_appends Aead.Toy.Overhead Aead.Toy.Decrypt
           (Aead.receiver
              (Aead.Toy.seal 0 [x00; x02] ++ Aead.Toy.seal 1 [x68; x69] ++ [x07]) 0%nat)
           {| Aead.dataBuffer := [x68; x69]; Aead.reader := [x07];
              Aead.CipherInst := 2%nat |}).
  vm_compute. reflexivity.
Defined.

Lemma Pack_stream_length_witness :
  0%nat = 0%nat
  /\ exists this',
      Aead.Pack Aead.Toy.Overhead Aead.Toy.Encrypt Aead.two_chunk_packet
        (Aead.sender 0%nat) = (None, this')
      /\ Z.of_nat (length (Aead.dataBuffer this'))
         = Z.of_nat (length Aead.two_chunk_packet)
           + Z.of_nat (Aead.chunk_num_of (Z.of_nat (length Aead.two_chunk_packet)))
             * Z.of_nat (2 + Aead.Toy.Overhead + Aead.Toy.Overhead).
Proof.
  split; [reflexivity|].
  apply (Pack_stream_length Aead.Toy.Overhead Aead.Toy.Encrypt Aead.Toy.Decrypt
           eq Toy_seal_open Aead.two_chunk_packet 0%nat 0%nat).
  reflexivity.
Defined.

(** ** The request decoder, all address types *)

Lemma slice_take (buf : list byte) (lo hi n : nat) :
  (hi <= n)%nat -> slice (take n buf) lo hi = slice buf lo hi.
Proof.
  intros H. unfold slice.
  destruct (decide (lo <= hi)%nat) as [Hle | Hgt].
  - rewrite !take_drop_commute, take_take. do 2 f_equal. lia.
  - replace (hi - lo)%nat with 0%nat by lia. by rewrite !take_0.
Qed.

Lemma nth_take (buf : list byte) (i n : nat) :
  (i < n)%nat -> nth i (take n buf) x00 = nth i buf x00.
Proof. intros H. by rewrite !nth_lookup, lookup_take_lt. Qed.

(** The result only depends on the bytes of the request itself. *)
Lemma host_port_take (IP_String : list byte -> string) (buf : list byte)
    (t : byte) (n : nat) :
  request_end (t :: drop 1 buf) = Some n ->
  host_port IP_String (take n buf) t n = host_port IP_String buf t n.
Proof.
  unfold request_end, host_port. intros Hn.
  destruct (Z.land (int_of_byte t) AddrMask =? typeIPv4).
  { injection Hn as <-. by rewrite !slice_take by (cbv; lia). }
  destruct (Z.land (int_of_byte t) AddrMask =? typeIPv6).
  { injection Hn as <-. by rewrite !slice_take by (cbv; lia). }
  destruct (Z.land (int_of_byte t) AddrMask =? typeDm); [|discriminate].
  destruct ((t :: drop 1 buf) !! idDmLen) as [l|] eqn:El; [|discriminate].
  injection Hn as <-.
  assert (Hl : nth idDmLen buf x00 = l).
  { destruct buf as [|b0 [|b1 buf']]; [discriminate..|].
    cbn in El. by injection El. }
  rewrite nth_take by (unfold idDmLen, idDm0; lia). rewrite Hl.
  by rewrite !slice_take by (unfold idDm0, lenDmBase; lia).
Qed.

Lemma ip_buffer (t : byte) (body : list byte) :
  (length body <= 268)%nat ->
  write_at (write_at (make 269) 0 [t]) idIP0 body
  = t :: body ++ replicate (268 - length body) x00.
Proof.
  intros H.
  change (write_at (make 269) 0 [t]) with (t :: replicate 268 x00).
  rewrite write_at_spec
    by (cbn [length]; rewrite length_replicate; unfold idIP0; lia).
  unfold idIP0. cbn [take drop Nat.add app]. by rewrite drop_replicate.
Qed.

Lemma request_end_bound (stream : list byte) (n : nat) :
  request_end stream = Some n -> (4 <= n <= 259)%nat.
Proof.
  unfold request_end. destruct stream as [|t tl]; [discriminate|].
  destruct (_ =? typeIPv4); [intros [= <-]; cbv; lia|].
  destruct (_ =? typeIPv6); [intros [= <-]; cbv; lia|].
  destruct (_ =? typeDm); [|discriminate].
  destruct (_ !! idDmLen) as [l|]; [|discriminate]. intros [= <-].
  pose proof (int_of_byte_range l). unfold idDm0, lenDmBase. lia.
Qed.

(** When the stream holds the whole request, [getRequest] of lines 509-565
    decodes it from the stream bytes and reads no further. *)
Lemma getRequest_stream (IP_String : list byte -> string) (conn : transport)
    (t : byte) (tl : list byte) (n : nat) :
  concat conn = t :: tl ->
  request_end (t :: tl) = Some n ->
  (n <= length (t :: tl))%nat ->
  exists conn',
    Server2.getRequest IP_String conn
    = (inl (host_port IP_String (t :: tl) t n), conn')
    /\ concat conn' = drop n (t :: tl).
Proof.
  intros Hconn Hend Hlen. pose proof (request_end_bound _ _ Hend) as Hn.
  rewrite <- (host_port_take IP_String (t :: tl) t n) by exact Hend.
  unfold Server2.getRequest.
  destruct (ReadFull_some conn (idType + 1) [t] tl) as (c1 & -> & Hc1);
    [done | done |].
  assert (Hnth : nth idType (write_at (make 269) 0 [t]) x00 = t) by reflexivity.
  rewrite Hnth. unfold request_end in Hend. cbn [length] in Hlen.
  destruct (Z.land (int_of_byte t) AddrMask =? typeIPv4) eqn:E4.
  { assert (n = 7%nat) as -> by (injection Hend as <-; reflexivity).
    change (idIP0 + lenIPv4 - idIP0)%nat with 6%nat.
    change (idIP0 + lenIPv4)%nat with 7%nat.
    destruct (ReadFull_some c1 6 (take 6 tl) (drop 6 tl)) as (c2 & -> & Hc2);
      [by rewrite take_drop | rewrite length_take; lia |].
    exists c2. split; [|done]. do 2 f_equal.
    rewrite ip_buffer by (rewrite length_take; lia).
    rewrite <- (host_port_take IP_String (t :: take 6 tl ++ _) t 7);
      [| unfold request_end; by rewrite E4].
    f_equal. cbn [take]. f_equal.
    rewrite take_app_le by (rewrite length_take; lia).
    rewrite take_take. f_equal. }
  destruct (Z.land (int_of_byte t) AddrMask =? typeIPv6) eqn:E6.
  { assert (n = 19%nat) as -> by (injection Hend as <-; reflexivity).
    change (idIP0 + lenIPv6 - idIP0)%nat with 18%nat.
    change (idIP0 + lenIPv6)%nat with 19%nat.
    destruct (ReadFull_some c1 18 (take 18 tl) (drop 18 tl)) as (c2 & -> & Hc2);
      [by rewrite take_drop | rewrite length_take; lia |].
    exists c2. split; [|done]. do 2 f_equal.
    rewrite ip_buffer by (rewrite length_take; lia).
    rewrite <- (host_port_take IP_String (t :: take 18 tl ++ _) t 19);
      [| unfold request_end; by rewrite E4, E6].
    f_equal. cbn [take]. f_equal.
    rewrite take_app_le by (rewrite length_take; lia).
    rewrite take_take. f_equal. }
  destruct (Z.land (int_of_byte t) AddrMask =? typeDm) eqn:Edm; [|discriminate].
  destruct tl as [|l tl2]; [discriminate|]. cbn [lookup list_lookup idDmLen] in Hend.
  assert (n = S (S (Z.to_nat (int_of_byte l) + 2))) as ->
    by (injection Hend as <-; unfold idDm0, lenDmBase; lia).
  clear Hend.
  destruct (ReadFull_some c1 (idDmLen + 1 - (idType + 1)) [l] tl2)
    as (c2 & -> & Hc2); [done | done |].
  assert (Hnth1 : nth idDmLen (write_at (write_at (make 269) 0 [t]) (idType + 1) [l]) x00
                  = l) by reflexivity.
  rewrite Hnth1.
  set (L := Z.to_nat (int_of_byte l)) in *.
  cbn [length] in Hlen.
  replace (idDm0 + L + lenDmBase - idDm0)%nat with (L + 2)%nat
    by (unfold idDm0, lenDmBase; lia).
  replace (idDm0 + L + lenDmBase)%nat with (S (S (L + 2)))
    by (unfold idDm0, lenDmBase; lia).
  destruct (ReadFull_some c2 (L + 2) (take (L + 2) tl2) (drop (L + 2) tl2))
    as (c3 & -> & Hc3); [by rewrite take_drop | rewrite length_take; lia |].
  exists c3. split; [|done].
  do 2 f_equal. rewrite domain_buffer by (rewrite length_take; lia).
  rewrite <- (host_port_take IP_String (t :: l :: take (L + 2) tl2 ++ _) t
                (S (S (L + 2)))).
  - f_equal. cbn [take]. do 2 f_equal.
    rewrite take_app_le by (rewrite length_take; lia).
    rewrite take_take. f_equal; lia.
  - unfold request_end. rewrite E4, E6, Edm. cbn [drop lookup list_lookup idDmLen].
    fold L. f_equal; unfold idDm0, lenDmBase; lia.
Qed.

Lemma ReadFull_inl_stream (conn conn' : transport) (n : nat) (bs : list byte) :
  ReadFull conn n = (inl bs, conn') ->
  concat conn = bs ++ concat conn' /\ length bs = n.
Proof.
  intros H. destruct (ReadFull_spec conn n) as [H1 H2]. rewrite H in H1, H2.
  cbn [fst snd] in H1, H2.
  destruct (Nat.leb_spec n (length (concat conn))); [|discriminate].
  injection H1 as ->. rewrite H2, take_drop, length_take. split; [done | lia].
Qed.

Lemma getRequest_unsupported_aux (IP_String : list byte -> string)
    (conn : transport) (t : byte) (tl : list byte) :
  concat conn = t :: tl ->
  Z.land (int_of_byte t) AddrMask <> typeIPv4 ->
  Z.land (int_of_byte t) AddrMask <> typeIPv6 ->
  Z.land (int_of_byte t) AddrMask <> typeDm ->
  exists conn',
    Server2.getRequest IP_String conn
    = (inr (ErrAddrTypeNotSupported (Z.land (int_of_byte t) AddrMask)), conn')
    /\ concat conn' = tl.
Proof.
  intros Hconn H4 H6 Hdm. unfold Server2.getRequest.
  destruct (ReadFull_some conn (idType + 1) [t] tl) as (c1 & -> & Hc1);
    [done | done |].
  assert (Hnth : nth idType (write_at (make 269) 0 [t]) x00 = t) by reflexivity.
  rewrite Hnth.
  destruct (Z.eqb_spec (Z.land (int_of_byte t) AddrMask) typeIPv4); [done|].
  destruct (Z.eqb_spec (Z.land (int_of_byte t) AddrMask) typeIPv6); [done|].
  destruct (Z.eqb_spec (Z.land (int_of_byte t) AddrMask) typeDm); [done|].
  by exists c1.
Qed.

Section DecoderMore.

Variable IP_String : list byte -> string.

(** X7: when the stream holds at least the length that the request
    declares, [getRequest] (lines 509-565) returns a host and leaves
    unread exactly the bytes that follow the request, however the stream
    is cut into reads. *)
Theorem getRequest_consumes_request (conn : transport) (n : nat) :
  request_end (concat conn) = Some n ->
  (n <= length (concat conn))%nat ->
  (exists host, (Server2.getRequest IP_String conn).1 = inl host)
  /\ concat (Server2.getRequest IP_String conn).2 = drop n (concat conn).
Proof.
  intros Hend Hlen. destruct (concat conn) as [|t tl] eqn:Hconn; [discriminate|].
  destruct (getRequest_stream IP_String conn t tl n Hconn Hend Hlen)
    as (conn' & -> & Hrest).
  split; [by eexists | exact Hrest].
Qed.

(** X8: [getRequest] (lines 509-565) returns a host only when the stream
    holds a complete request: a supported address type and at least the
    length the request declares.  A truncated request is an error, never
    a host. *)
Theorem getRequest_host_needs_request (conn : transport) (host : string) :
  (Server2.getRequest IP_String conn).1 = inl host ->
  exists n, request_end (concat conn) = Some n
            /\ (n <= length (concat conn))%nat.
Proof.
  unfold Server2.getRequest.
  destruct (ReadFull conn (idType + 1)) as [[bs | e] c1] eqn:E1; [|discriminate].
  apply ReadFull_inl_stream in E1 as [Hc Hb].
  destruct bs as [|t [|? ?]]; try discriminate. clear Hb.
  assert (Hnth : nth idType (write_at (make 269) 0 [t]) x00 = t) by reflexivity.
  rewrite Hnth, Hc. unfold request_end. cbn [app].
  destruct (Z.land (int_of_byte t) AddrMask =? typeIPv4).
  { destruct (ReadFull c1 _) as [[bs | e] c2] eqn:E2; [|discriminate].
    apply ReadFull_inl_stream in E2 as [Hc2 Hb2]. intros _.
    eexists. split; [reflexivity|].
    rewrite Hc2. cbn [length]. rewrite length_app, Hb2. cbv. lia. }
  destruct (Z.land (int_of_byte t) AddrMask =? typeIPv6).
  { destruct (ReadFull c1 _) as [[bs | e] c2] eqn:E2; [|discriminate].
    apply ReadFull_inl_stream in E2 as [Hc2 Hb2]. intros _.
    eexists. split; [reflexivity|].
    rewrite Hc2. cbn [length]. rewrite length_app, Hb2. cbv. lia. }
  destruct (Z.land (int_of_byte t) AddrMask =? typeDm); [|discriminate].
  destruct (ReadFull c1 _) as [[bs | e] c2] eqn:E2; [|discriminate].
  apply ReadFull_inl_stream in E2 as [Hc2 Hb2].
  destruct bs as [|l [|? ?]]; try discriminate. clear Hb2.
  assert (Hnth1 : nth idDmLen (write_at (write_at (make 269) 0 [t]) (idType + 1) [l]) x00
                  = l) by reflexivity.
  rewrite Hnth1, Hc2. cbn [app lookup list_lookup idDmLen].
  destruct (ReadFull c2 _) as [[bs | e] c3] eqn:E3; [|discriminate].
  apply ReadFull_inl_stream in E3 as [Hc3 Hb3]. intros _.
  eexists. split; [reflexivity|].
  rewrite Hc3. cbn [length]. rewrite length_app, Hb3.
  unfold idDm0, lenDmBase. lia.
Qed.

(** X9: an IPv4 request (low four bits of the type equal to 1, four
    address bytes) or an IPv6 request (4, sixteen bytes) decodes to the
    address rendered by [net.IP.String], joined with the decimal port, and
    the bytes after the request stay unread. *)
Theorem getRequest_ip (t : byte) (addr : list byte) (port : Z)
    (conn : transport) (extra : list byte) :
  (Z.land (int_of_byte t) AddrMask = typeIPv4 /\ length addr = IPv4len)
  \/ (Z.land (int_of_byte t) AddrMask = typeIPv6 /\ length addr = IPv6len) ->
  0 <= port <= 65535 ->
  concat conn = ip_request t addr port ++ extra ->
  (Server2.getRequest IP_String conn).1
  = inl (JoinHostPort (IP_String addr) (Itoa port))
  /\ concat (Server2.getRequest IP_String conn).2 = extra.
Proof.
  intros Htype Hport Hconn. unfold ip_request in Hconn. cbn [app] in Hconn.
  set (pp := [byte_of_int (Z.shiftr port 8); byte_of_int port]) in *.
  assert (Hend : request_end (t :: (addr ++ pp) ++ extra)
                 = Some (S (length addr + 2))).
  { unfold request_end.
    destruct Htype as [[-> ->] | [-> ->]]; reflexivity. }
  destruct (getRequest_stream IP_String conn t ((addr ++ pp) ++ extra)
              (S (length addr + 2)) Hconn Hend) as (conn' & -> & Hrest).
  { cbn [length]. rewrite !length_app. simpl length. lia. }
  cbn [fst snd]. split.
  - f_equal. unfold host_port.
    assert (Hp : slice (t :: (addr ++ pp) ++ extra)
                   (S (length addr + 2) - 2) (S (length addr + 2)) = pp).
    { unfold slice.
      replace (S (length addr + 2) - 2)%nat with (S (length addr)) by lia.
      replace (S (length addr + 2) - S (length addr))%nat with 2%nat by lia.
      cbn [drop]. by rewrite <- app_assoc, drop_app_length. }
    rewrite Hp. unfold pp. rewrite BigEndian_Uint16_bytes by lia.
    assert (Ha : forall hi, hi = S (length addr) ->
                   slice (t :: (addr ++ pp) ++ extra) idIP0 hi = addr).
    { intros hi ->. unfold slice, idIP0. cbn [drop].
      replace (S (length addr) - 1)%nat with (length addr) by lia.
      by rewrite drop_0, <- app_assoc, take_app_length. }
    destruct Htype as [[Ht Hl] | [Ht Hl]]; rewrite Ht.
    + cbn [Z.eqb typeIPv4 Pos.eqb]. by rewrite Ha by (rewrite Hl; reflexivity).
    + cbn [Z.eqb typeIPv4 typeIPv6 Pos.eqb].
      by rewrite Ha by (rewrite Hl; reflexivity).
  - rewrite Hrest. cbn [drop].
    replace (length addr + 2)%nat with (length (addr ++ pp))
      by (rewrite length_app; reflexivity).
    apply drop_app_length.
Qed.

(** X10: an address type whose low four bits are not 1, 3 or 4 is answered
    with the unsupported-type error, which carries those four bits; only
    the type byte has been read. *)
Theorem getRequest_unsupported_type (conn : transport) (t : byte)
    (tl : list byte) :
  concat conn = t :: tl ->
  Z.land (int_of_byte t) AddrMask <> typeIPv4 ->
  Z.land (int_of_byte t) AddrMask <> typeIPv6 ->
  Z.land (int_of_byte t) AddrMask <> typeDm ->
  (Server2.getRequest IP_String conn).1
  = inr (ErrAddrTypeNotSupported (Z.land (int_of_byte t) AddrMask))
  /\ concat (Server2.getRequest IP_String conn).2 = tl.
Proof.
  intros Hconn H4 H6 Hdm.
  destruct (getRequest_unsupported_aux IP_String conn t tl Hconn H4 H6 Hdm)
    as (conn' & -> & Hrest).
  by split.
Qed.

(** X11: when the plaintext of the one read holds a whole request (all the
    bytes up to the end that the request declares are there), the copy of
    [getRequest] at lines 44-112 returns what the copy at lines 509-565
    returns when given that plaintext as its stream.  Every index and
    slice expression of the first copy then ends within [len(data)], so
    the capacity of [data] plays no part. *)
Theorem getRequest_copies_agree (UnPack : list byte -> list byte)
    (seg : list byte) (rest : transport) (reqEnd : nat) :
  (length seg <= 2048)%nat ->
  request_end (UnPack seg) = Some reqEnd ->
  (reqEnd <= length (UnPack seg))%nat ->
  (Server1.getRequest IP_String UnPack (seg :: rest)).1
  = Returns (Server2.getRequest IP_String [UnPack seg]).1.
Proof.
  intros Hseg Hend Hlen. unfold Server1.getRequest, Read.
  destruct (Nat.leb_spec (length seg) 2048); [|lia].
  destruct (UnPack seg) as [|t tl] eqn:Hdata; [discriminate|].
  assert (Hconn : concat [t :: tl] = t :: tl) by (cbn; by rewrite app_nil_r).
  destruct (getRequest_stream IP_String [t :: tl] t tl reqEnd Hconn Hend Hlen)
    as (conn' & -> & _).
  cbn [Server1.in_bounds length idType Nat.add Nat.leb negb].
  cbn [Server1.index lookup list_lookup idType].
  assert (Hb : Server1.in_bounds (t :: tl) reqEnd = true)
    by (by apply Nat.leb_le).
  revert Hend. unfold request_end.
  destruct (Z.land (int_of_byte t) AddrMask =? typeIPv4).
  { intros Hend. apply (inj Some) in Hend. by rewrite Hend, Hb. }
  destruct (Z.land (int_of_byte t) AddrMask =? typeIPv6).
  { intros Hend. apply (inj Some) in Hend. by rewrite Hend, Hb. }
  destruct (Z.land (int_of_byte t) AddrMask =? typeDm); [|discriminate].
  destruct tl as [|l tl2]; [discriminate|].
  cbn [Server1.index lookup list_lookup idDmLen].
  intros Hend. apply (inj Some) in Hend. by rewrite Hend, Hb.
Qed.

End DecoderMore.

(** ** The handler, all paths *)

Lemma ContainsNUL_app (a b : string) :
  ContainsNUL (a ++ b) = ContainsNUL a || ContainsNUL b.
Proof.
  induction a as [|c a IH]; [reflexivity|].
  simpl. rewrite IH. by destruct (Ascii.eqb c zero).
Qed.

Lemma ContainsNUL_bytes (domain : list byte) :
  ContainsNUL (string_of_list_byte domain) = bool_decide (x00 ∈ domain).
Proof.
  induction domain as [|b domain IH]; [reflexivity|].
  change (string_of_list_byte (b :: domain))
    with (String (ascii_of_byte b) (string_of_list_byte domain)).
  cbn [ContainsNUL]. rewrite IH.
  destruct (decide (b = x00)) as [-> | Hne].
  - rewrite (bool_decide_eq_true_2 (x00 ∈ x00 :: domain)) by left. reflexivity.
  - replace (Ascii.eqb (ascii_of_byte b) zero) with false
      by (destruct b; try reflexivity; congruence).
    apply bool_decide_ext. rewrite elem_of_cons.
    split; [by right | intros [H | H]; [congruence | done]].
Qed.

Lemma ContainsNUL_digits (d : Decimal.uint) :
  ContainsNUL (NilEmpty.string_of_uint d) = false.
Proof. induction d; cbn [NilEmpty.string_of_uint ContainsNUL]; done. Qed.

Lemma ContainsNUL_Itoa (x : Z) : ContainsNUL (Itoa x) = false.
Proof.
  unfold Itoa, NilZero.string_of_int, NilZero.string_of_uint.
  destruct (Z.to_int x) as [d | d]; destruct d;
    try reflexivity; cbn [ContainsNUL Ascii.eqb]; cbn;
    apply ContainsNUL_digits.
Qed.

Lemma ContainsNUL_JoinHostPort (host : string) (x : Z) :
  ContainsNUL (JoinHostPort host (Itoa x)) = ContainsNUL host.
Proof.
  unfold JoinHostPort. destruct (has_colon host);
    rewrite !ContainsNUL_app, ContainsNUL_Itoa; cbn [ContainsNUL Ascii.eqb];
    cbn; by rewrite ?orb_false_r.
Qed.

(** What [host_port] makes of a domain request. *)
Lemma host_port_domain (IP_String : list byte -> string) (t : byte)
    (domain : list byte) (port : Z) (extra : list byte) :
  Z.land (int_of_byte t) AddrMask = typeDm ->
  (length domain <= 255)%nat ->
  0 <= port <= 65535 ->
  request_end (domain_request t domain port ++ extra)
  = Some (idDm0 + length domain + lenDmBase)%nat
  /\ host_port IP_String (domain_request t domain port ++ extra) t
       (idDm0 + length domain + lenDmBase)
     = JoinHostPort (string_of_list_byte domain) (Itoa port).
Proof.
  intros Ht Hlen Hport.
  set (l := byte_of_int (Z.of_nat (length domain))).
  assert (Hl : Z.to_nat (int_of_byte l) = length domain).
  { unfold l. rewrite int_of_byte_of_int. change 255 with (Z.ones 8).
    rewrite Z.land_ones, Z.mod_small by (change (2 ^ 8) with 256; lia). lia. }
  unfold domain_request. fold l. cbn [app]. split.
  - unfold request_end. rewrite Ht.
    cbn [Z.eqb typeDm typeIPv4 typeIPv6 Pos.eqb lookup list_lookup idDmLen].
    by rewrite Hl.
  - unfold host_port. rewrite Ht. cbn [Z.eqb typeDm typeIPv4 typeIPv6 Pos.eqb].
    cbn [nth idDmLen]. rewrite Hl.
    assert (Hhost : slice (t :: l :: (domain ++ [byte_of_int (Z.shiftr port 8);
                                                byte_of_int port]) ++ extra)
                      idDm0 (idDm0 + length domain) = domain).
    { unfold slice, idDm0. cbn [drop].
      replace (2 + length domain - 2)%nat with (length domain) by lia.
      rewrite <- !app_assoc. apply take_app_length. }
    assert (Hp : slice (t :: l :: (domain ++ [byte_of_int (Z.shiftr port 8);
                                             byte_of_int port]) ++ extra)
                   (idDm0 + length domain + lenDmBase - 2)
                   (idDm0 + length domain + lenDmBase)
                 = [byte_of_int (Z.shiftr port 8); byte_of_int port]).
    { unfold slice, idDm0, lenDmBase.
      replace (2 + length domain + 2 - 2)%nat with (S (S (length domain))) by lia.
      replace (2 + length domain + 2 - S (S (length domain)))%nat with 2%nat by lia.
      cbn [drop]. rewrite <- !app_assoc, drop_app_length. reflexivity. }
    by rewrite Hhost, Hp, BigEndian_Uint16_bytes by lia.
Qed.

Section HandlerMore.

Variable getRequest : transport -> outcome (string + error) * transport.
Variable Dial : string -> dial_result.

(** X12: every call of [handleConnection] does one of four things: it
    gives up on a failed request without dialing or closing; it dials
    once, fails, and closes the client connection; it dials once,
    succeeds, and relays, leaving both closes to the relay functions; or
    [getRequest] panics and the deferred cleanup closes the client
    connection.  The host dialed is the one [getRequest] returned and has
    no NUL in it. *)
Theorem handleConnection_paths (conn : transport) (g : globals) :
  let r := handleConnection getRequest Dial conn g in
  (request_fails getRequest conn
   /\ events_of r = [EvConnCntInc; EvConnCntDec] /\ exit_of r = Normal)
  \/ (exists host,
        (getRequest conn).1 = Returns (inl host)
        /\ ContainsNUL host = false /\ Dial host = DialErr
        /\ events_of r = [EvConnCntInc; EvDial host; EvConnCntDec; EvConnClose]
        /\ exit_of r = Normal)
  \/ (exists host,
        (getRequest conn).1 = Returns (inl host)
        /\ ContainsNUL host = false /\ Dial host = DialOk
        /\ events_of r
           = [EvConnCntInc; EvDial host; EvGoPipe; EvPipe; EvConnCntDec]
        /\ exit_of r = Normal)
  \/ (exists msg,
        (getRequest conn).1 = Panics msg
        /\ events_of r = [EvConnCntInc; EvConnCntDec; EvConnClose]
        /\ exit_of r = Panicking msg).
Proof.
  unfold request_fails, handleConnection, handle_body, events_of, exit_of.
  cbv zeta.
  destruct (getRequest conn) as [[[host | err] | msg] conn']; cbn [fst snd].
  - destruct (ContainsNUL host) eqn:Hnul; [by left|].
    destruct (Dial host) eqn:Hdial.
    + right. right. left. by exists host.
    + right. left. by exists host.
  - by left.
  - right. right. right. by exists msg.
Qed.

(** X13: while the count of connections is below the log threshold, a
    call of [handleConnection] leaves it there: the threshold moves up by
    [logCntDelta] exactly when the connection being handled makes the
    count reach it, and is otherwise untouched. *)
Theorem handleConnection_log_threshold (conn : transport) (g : globals) :
  0 <= connCnt g < nextLogConnCnt g ->
  nextLogConnCnt g < 2 ^ 62 ->
  let g' := globals_of (handleConnection getRequest Dial conn g) in
  connCnt g' < nextLogConnCnt g'
  /\ nextLogConnCnt g'
     = if connCnt g + 1 =? nextLogConnCnt g
       then nextLogConnCnt g + logCntDelta else nextLogConnCnt g.
Proof.
  intros Hc Hn. unfold handleConnection, globals_of, logCntDelta. cbv zeta.
  destruct (handle_body getRequest Dial conn) as [[[closed deferred] evs] how].
  cbn [fst snd connCnt nextLogConnCnt].
  rewrite (wrap64_id (connCnt g + 1)) by lia.
  rewrite (wrap64_id (connCnt g + 1 - nextLogConnCnt g)) by lia.
  destruct (Z.geb_spec (connCnt g + 1 - nextLogConnCnt g) 0);
    destruct (Z.eqb_spec (connCnt g + 1) (nextLogConnCnt g));
    cbn [connCnt nextLogConnCnt]; try lia;
    rewrite ?(wrap64_id (connCnt g + 1 - 1)), ?(wrap64_id (nextLogConnCnt g + 100))
      by lia; lia.
Qed.

End HandlerMore.

(** X14: end to end, for a well-formed domain request read by [getRequest]
    (lines 509-565): a domain with a NUL byte is never dialed; any other
    domain is dialed once, as [domain:port] (in brackets when it has a
    colon), and relayed if the dial succeeds, or the client connection is
    closed if it fails. *)
Theorem handleConnection_domain_request (IP_String : list byte -> string)
    (Dial : string -> dial_result) (t : byte) (domain : list byte) (port : Z)
    (conn : transport) (extra : list byte) (g : globals) :
  Z.land (int_of_byte t) AddrMask = typeDm ->
  (length domain <= 255)%nat ->
  0 <= port <= 65535 ->
  concat conn = domain_request t domain port ++ extra ->
  let host := JoinHostPort (string_of_list_byte domain) (Itoa port) in
  events_of (handleConnection (returning (Server2.getRequest IP_String)) Dial conn g)
  = if bool_decide (x00 ∈ domain) then [EvConnCntInc; EvConnCntDec]
    else match Dial host with
         | DialOk => [EvConnCntInc; EvDial host; EvGoPipe; EvPipe; EvConnCntDec]
         | DialErr => [EvConnCntInc; EvDial host; EvConnCntDec; EvConnClose]
         end.
Proof.
  intros Ht Hlen Hport Hconn host.
  destruct (host_port_domain IP_String t domain port extra Ht Hlen Hport)
    as [Hend Hhost].
  destruct (getRequest_stream IP_String conn t
              (byte_of_int (Z.of_nat (length domain))
               :: (domain ++ [byte_of_int (Z.shiftr port 8); byte_of_int port])
               ++ extra)
              (idDm0 + length domain + lenDmBase) Hconn Hend)
    as (conn' & Hreq & _).
  { unfold domain_request. cbn [app length]. rewrite !length_app. simpl length.
    unfold idDm0, lenDmBase. lia. }
  change (t :: _ :: _ ++ extra) with (domain_request t domain port ++ extra) in Hreq.
  rewrite Hhost in Hreq. fold host in Hreq.
  unfold handleConnection, handle_body, returning, events_of. rewrite Hreq.
  cbn [fst snd]. unfold host at 1.
  rewrite ContainsNUL_JoinHostPort, ContainsNUL_bytes. fold host.
  destruct (bool_decide (x00 ∈ domain)); [reflexivity|].
  by destruct (Dial host).
Qed.

(** ** The password manager, further *)

Ltac del_cases w port :=
  unfold PasswdManager.del;
  destruct (PasswdManager.get port w) as [?pl|]; [|done];
  let Hudp := fresh "Hudp" in
  destruct (PasswdManager.udp w) eqn:Hudp;
  [destruct (PasswdManager.getUDP port w) as [?upl|]; [|done]|];
  simpl; rewrite ?Hudp; simpl.

Section PasswdManagerMore.
Import PasswdManager.

(** A step that opens no socket, registers nothing new and creates no
    socket number keeps [sockets_ok]. *)
Lemma sockets_ok_shrink (w w' : world) :
  next_socket w' = next_socket w ->
  (forall ln p, listening w' !! ln = Some p -> listening w !! ln = Some p) ->
  (forall port pl, portListener w' !! port = Some pl ->
                   portListener w !! port = Some pl) ->
  sockets_ok w -> sockets_ok w'.
Proof.
  intros Hnext Hlis Hreg [Hfresh Hown]. split.
  - intros ln p H. rewrite Hnext. by apply (Hfresh ln p), Hlis.
  - intros port pl ln Hp Hl. apply (Hown port pl ln); [by apply Hreg | by apply Hlis].
Qed.

Lemma Close_lookup (ln ln' : nat) (p : string) (w : world) :
  listening (Close ln w) !! ln' = Some p -> listening w !! ln' = Some p.
Proof. simpl. intros H. by apply lookup_delete_Some in H as [_ H]. Qed.

Lemma updatePortPasswd_ok (port passwd : string) (w : world) :
  sockets_ok w -> sockets_ok (updatePortPasswd port passwd w).
Proof.
  apply sockets_ok_shrink.
  - unfold updatePortPasswd.
    destruct (get port w); [destruct (bool_decide _)|]; reflexivity.
  - apply updatePortPasswd_frame.
  - destruct (updatePortPasswd_frame port passwd w) as [-> _]. auto.
Qed.

Lemma del_ok (port : string) (w : world) :
  sockets_ok w -> sockets_ok (del port w).
Proof.
  apply sockets_ok_shrink.
  - del_cases w port; reflexivity.
  - intros ln p. del_cases w port; intros H.
    + apply lookup_delete_Some in H as [_ H].
      by apply lookup_delete_Some in H as [_ H].
    + by apply lookup_delete_Some in H as [_ H].
  - intros q pl'. del_cases w port; intros H;
      by apply lookup_delete_Some in H as [_ H].
Qed.

(** X15: [sockets_ok] (socket numbers are below the next one to be
    created, and a registered port has no listening socket other than the
    registered one) is kept by [updatePortPasswd] and by [del]. *)
Theorem sockets_ok_kept (port passwd : string) (w : world) :
  sockets_ok w ->
  sockets_ok (updatePortPasswd port passwd w)
  /\ sockets_ok (del port w).
Proof.
  intros Hok. split; [by apply updatePortPasswd_ok | by apply del_ok].
Qed.

(** X18: [del] touches nothing but its port: the records of the other
    ports stay, and every listening socket other than the listeners
    registered for the port keeps listening; on a port that is not
    registered it does nothing. *)
Theorem del_frame (port : string) (w : world) :
  (get port w = None -> del port w = w)
  /\ (forall q, q <> port -> get q (del port w) = get q w)
  /\ (forall ln p,
        listening w !! ln = Some p ->
        (forall pl, get port w = Some pl -> ln <> listener pl) ->
        (forall upl, getUDP port w = Some upl -> ln <> udp_listener upl) ->
        listening (del port w) !! ln = Some p).
Proof.
  unfold del. split; [by intros ->|]. split.
  - intros q Hq. destruct (get port w) as [pl|]; [|done].
    destruct (udp w) eqn:Hudp; [destruct (getUDP port w) as [upl|]; [|done]|];
      unfold get; simpl; rewrite ?Hudp; simpl; by rewrite lookup_delete_ne.
  - intros ln p Hln Hpl Hupl. destruct (get port w) as [pl|]; [|done].
    specialize (Hpl pl eq_refl).
    destruct (udp w) eqn:Hudp; [destruct (getUDP port w) as [upl|]; [|done]|];
      simpl; rewrite ?Hudp; simpl.
    + specialize (Hupl upl eq_refl). by rewrite !lookup_delete_ne.
    + by rewrite lookup_delete_ne.
Qed.

Lemma update_loop_started (todo : list (string * string)) :
  forall (w : world) (old : gmap string string),
    started (update_loop todo (w, old)).1
    = started w ++ filter (fun entry => needs_run w entry = true) todo.
Proof.
  induction todo as [|[port passwd] todo IH]; intros w old.
  - cbn. by rewrite app_nil_r.
  - unfold update_loop in *. cbn [foldl fst snd]. rewrite IH.
    destruct (updatePortPasswd_frame port passwd w) as (Hreg & _ & _).
    assert (Hsame : forall entry,
               needs_run (updatePortPasswd port passwd w) entry = needs_run w entry).
    { intros entry. unfold needs_run, get. by rewrite Hreg. }
    rewrite (list_filter_iff _ (fun entry => needs_run w entry = true))
      by (intros entry; by rewrite Hsame).
    rewrite filter_cons. unfold updatePortPasswd.
    destruct (get port w) as [pl|] eqn:Hget.
    + destruct (bool_decide_reflect (password pl = passwd)) as [Hpw | Hpw].
      * rewrite decide_False; [done|].
        unfold needs_run. cbn [fst snd]. rewrite Hget.
        by rewrite bool_decide_eq_true_2.
      * rewrite decide_True.
        -- cbn [go_run Close started]. by rewrite <- app_assoc.
        -- unfold needs_run. cbn [fst snd]. rewrite Hget.
           by rewrite bool_decide_eq_false_2.
    + rewrite decide_True.
      * cbn [go_run started]. by rewrite <- app_assoc.
      * unfold needs_run. cbn [fst snd]. by rewrite Hget.
Qed.

Lemma del_started (port : string) (w : world) : started (del port w) = started w.
Proof.
  unfold del. destruct (get port w) as [pl|]; [|done].
  destruct (udp w) eqn:Hudp; [destruct (getUDP port w) as [upl|]; [|done]|];
    simpl; by rewrite ?Hudp.
Qed.

Lemma del_loop_started (todo : list (string * string)) :
  forall w, started (del_loop todo w) = started w.
Proof.
  induction todo as [|[port passwd] todo IH]; intros w; [done|].
  unfold del_loop in *. cbn [foldl]. by rewrite IH, del_started.
Qed.

Variable range : gmap string string -> list (string * string).
Hypothesis range_perm : forall m, range m ≡ₚ map_to_list m.

(** X19: a reload starts a server loop for exactly those ports of the new
    configuration that are not registered or are registered under another
    password, one loop each, in the order of the walk over the
    configuration; removing ports starts nothing. *)
Theorem updatePasswd_started (newconfig unified : Config) (w w' : world) :
  unifyPortPassword newconfig = Some unified ->
  updatePasswd range (Some newconfig) w = Some w' ->
  started w'
  = started w
    ++ filter (fun entry => needs_run w entry = true) (range (PortPassword unified)).
Proof.
  intros Hunify. unfold updatePasswd. rewrite Hunify.
  pose proof (update_loop_started (range (PortPassword unified))
                (set_config unified w) (PortPassword (config w))) as Hst.
  destruct (update_loop _ _) as [w1 old_left]. cbn [fst] in Hst.
  intros [= <-]. by rewrite del_loop_started, Hst.
Qed.

(** X20: a reload whose configuration lists the same ports with the same
    passwords as the running one, all of them registered, closes nothing,
    starts nothing and leaves the registry as it is: only [config] is
    replaced. *)
Theorem updatePasswd_unchanged (newconfig unified : Config) (w : world) :
  unifyPortPassword newconfig = Some unified ->
  PortPassword (config w) = PortPassword unified ->
  registry_matches unified w ->
  updatePasswd range (Some newconfig) w = Some (set_config unified w).
Proof.
  intros Hunify Hsame Hmatch. unfold updatePasswd. rewrite Hunify.
  assert (Hloop : forall todo (w0 : world) old,
    (forall port passwd, (port, passwd) ∈ todo ->
        exists pl, get port w0 = Some pl /\ password pl = passwd) ->
    (update_loop todo (w0, old)).1 = w0).
  { induction todo as [|[port passwd] todo IH]; intros w0 old Hall; [done|].
    unfold update_loop in *. cbn [foldl fst snd].
    destruct (Hall port passwd) as (pl & Hget & Hpw); [left|].
    assert (Hid : updatePortPasswd port passwd w0 = w0).
    { unfold updatePortPasswd. rewrite Hget. by rewrite bool_decide_eq_true_2. }
    rewrite Hid. apply IH. intros q pw Hin. apply Hall. by right. }
  destruct (update_loop_frame (range (PortPassword unified))
              (set_config unified w) (PortPassword (config w)))
    as (_ & _ & _ & Hold).
  specialize (Hloop (range (PortPassword unified)) (set_config unified w)
                (PortPassword (config w))).
  destruct (update_loop _ _) as [w1 old_left]. cbn [fst snd] in *.
  rewrite Hloop.
  - assert (Hempty : old_left = ∅).
    { apply map_eq. intros port. rewrite Hold, lookup_empty.
      destruct (bool_decide_reflect (port ∈ (range (PortPassword unified)).*1))
        as [Hin | Hnin]; [done|].
      rewrite Hsame. apply eq_None_not_Some. intros Hsome. apply Hnin.
      by apply (range_keys range range_perm). }
    rewrite Hempty.
    assert (Hnil : range (∅ : gmap string string) = []).
    { apply Permutation_nil_r. rewrite (range_perm ∅). by rewrite map_to_list_empty. }
    by rewrite Hnil.
  - intros port passwd Hin.
    assert (Hcfg : PortPassword unified !! port = Some passwd).
    { apply elem_of_map_to_list. by rewrite <- (range_perm (PortPassword unified)). }
    specialize (Hmatch port). rewrite Hcfg in Hmatch.
    change (get port (set_config unified w)) with (get port w).
    destruct (get port w) as [pl|]; [|discriminate].
    exists pl. split; [done|]. by injection Hmatch.
Qed.

(** X24: a reload keeps [sockets_ok], whatever the new configuration and
    whether the UDP relay is on or off. *)
Theorem updatePasswd_keeps_sockets_ok (parsed : option Config) (w w' : world) :
  sockets_ok w ->
  updatePasswd range parsed w = Some w' ->
  sockets_ok w'.
Proof.
  intros Hok. unfold updatePasswd.
  destruct parsed as [newconfig|]; [|by intros [= <-]].
  destruct (unifyPortPassword newconfig) as [unified|]; [|discriminate].
  assert (Hupd : forall todo (w0 : world) old,
             sockets_ok w0 -> sockets_ok (update_loop todo (w0, old)).1).
  { induction todo as [|[port passwd] todo IH]; intros w0 old H0; [done|].
    unfold update_loop in *. cbn [foldl fst snd].
    by apply IH, updatePortPasswd_ok. }
  assert (Hdel : forall todo (w0 : world),
             sockets_ok w0 -> sockets_ok (del_loop todo w0)).
  { induction todo as [|[port passwd] todo IH]; intros w0 H0; [done|].
    unfold del_loop in *. cbn [foldl]. by apply IH, del_ok. }
  specialize (Hupd (range (PortPassword unified)) (set_config unified w)
                (PortPassword (config w)) Hok).
  destruct (update_loop _ _) as [w1 old_left]. cbn [fst] in Hupd.
  intros [= <-]. by apply Hdel.
Qed.

End PasswdManagerMore.

(** ** Instances *)

Lemma getRequest_consumes_request_witness :
  request_end (concat [[x01; x7f]; [x00; x00; x01; x00; x50; xaa]]) = Some 7%nat
  /\ (7 <= length (concat [[x01; x7f]; [x00; x00; x01; x00; x50; xaa]]))%nat
  /\ concat (Server2.getRequest dotted_quad
               [[x01; x7f]; [x00; x00; x01; x00; x50; xaa]]).2
     = [xaa].
Proof.
  split; [reflexivity|]. split; [simpl; lia|].
  apply (getRequest_consumes_request dotted_quad
           [[x01; x7f]; [x00; x00; x01; x00; x50; xaa]] 7);
    [reflexivity | simpl; lia].
Defined.

Lemma getRequest_host_needs_request_witness :
  (Server2.getRequest no_ip [[x03; x01]; [x41; x00; x50]]).1 = inl "A:80"%string
  /\ exists n,
      request_end (concat [[x03; x01]; [x41; x00; x50]]) = Some n
      /\ (n <= length (concat [[x03; x01]; [x41; x00; x50]]))%nat.
Proof.
  split; [reflexivity|].
  apply (getRequest_host_needs_request no_ip [[x03; x01]; [x41; x00; x50]] "A:80").
  reflexivity.
Defined.

Lemma getRequest_ip_witness :
  (Z.land (int_of_byte x01) AddrMask = typeIPv4
   /\ length [x7f; x00; x00; x01] = IPv4len
   \/ Z.land (int_of_byte x01) AddrMask = typeIPv6
      /\ length [x7f; x00; x00; x01] = IPv6len)
  /\ 0 <= 8080 <= 65535
  /\ (Server2.getRequest dotted_quad [[x01; x7f; x00]; [x00; x01; x1f; x90; xaa]]).1
     = inl "127.0.0.1:8080"%string
  /\ concat (Server2.getRequest dotted_quad
               [[x01; x7f; x00]; [x00; x01; x1f; x90; xaa]]).2
     = [xaa].
Proof.
  split; [left; split; reflexivity|]. split; [lia|].
  apply (getRequest_ip dotted_quad x01 [x7f; x00; x00; x01] 8080
           [[x01; x7f; x00]; [x00; x01; x1f; x90; xaa]] [xaa]).
  - left. split; reflexivity.
  - lia.
  - reflexivity.
Defined.

Lemma getRequest_unsupported_type_witness :
  Z.land (int_of_byte x15) AddrMask <> typeIPv4
  /\ Z.land (int_of_byte x15) AddrMask <> typeIPv6
  /\ Z.land (int_of_byte x15) AddrMask <> typeDm
  /\ (Server2.getRequest no_ip [[x15; x01]; [x02]]).1
     = inr (ErrAddrTypeNotSupported 5)
  /\ concat (Server2.getRequest no_ip [[x15; x01]; [x02]]).2 = [x01; x02].
Proof.
  split; [discriminate|]. split; [discriminate|]. split; [discriminate|].
  apply (getRequest_unsupported_type no_ip [[x15; x01]; [x02]] x15 [x01; x02]);
    [reflexivity | discriminate..].
Defined.

Lemma getRequest_copies_agree_witness :
  (length (x03 :: x0b :: list_byte_of_string "example.com" ++ [x01; xbb]) <= 2048)%nat
  /\ request_end (x03 :: x0b :: list_byte_of_string "example.com" ++ [x01; xbb])
     = Some 15%nat
  /\ (Server1.getRequest no_ip (fun bs => bs)
        [x03 :: x0b :: list_byte_of_string "example.com" ++ [x01; xbb]]).1
     = Returns (inl "example.com:443"%string).
Proof.
  split; [simpl; lia|]. split; [reflexivity|].
  apply (getRequest_copies_agree no_ip (fun bs => bs)
           (x03 :: x0b :: list_byte_of_string "example.com" ++ [x01; xbb]) [] 15);
    [simpl; lia | reflexivity | simpl; lia].
Defined.

Lemma getRequest_cut_independent_witness :
  concat [[x03]; [x01; x41]; [x00; x50]] = concat [[x03; x01; x41; x00; x50]]
  /\ (Server2.getRequest no_ip [[x03]; [x01; x41]; [x00; x50]]).1
     = (Server2.getRequest no_ip [[x03; x01; x41; x00; x50]]).1.
Proof.
  split; [reflexivity|].
  apply (getRequest_cut_independent no_ip [[x03]; [x01; x41]; [x00; x50]]
           [[x03; x01; x41; x00; x50]]).
  reflexivity.
Defined.

Lemma handleConnection_log_threshold_witness :
  0 <= 99 < 100
  /\ 100 < 2 ^ 62
  /\ nextLogConnCnt
       (globals_of (handleConnection (returning (Server2.getRequest no_ip)) dial_ok
                      [[x05]] {| connCnt := 99; nextLogConnCnt := 100 |}))
     = 200.
Proof.
  split; [lia|]. split; [lia|].
  apply (handleConnection_log_threshold
           (returning (Server2.getRequest no_ip)) dial_ok [[x05]]
           {| connCnt := 99; nextLogConnCnt := 100 |}); simpl; lia.
Defined.

Lemma handleConnection_domain_request_witness :
  Z.land (int_of_byte x03) AddrMask = typeDm
  /\ (length (list_byte_of_string "example.com") <= 255)%nat
  /\ 0 <= 443 <= 65535
  /\ events_of
       (handleConnection (returning (Server2.getRequest no_ip)) dial_ok
          [[x03; x0b]; list_byte_of_string "example.com" ++ [x01; xbb; x16]]
          {| connCnt := 0; nextLogConnCnt := logCntDelta |})
     = [EvConnCntInc; EvDial "example.com:443"; EvGoPipe; EvPipe; EvConnCntDec].
Proof.
  split; [reflexivity|]. split; [vm_compute; lia|]. split; [lia|].
  apply (handleConnection_domain_request no_ip dial_ok x03
           (list_byte_of_string "example.com") 443
           [[x03; x0b]; list_byte_of_string "example.com" ++ [x01; xbb; x16]] [x16]
           {| connCnt := 0; nextLogConnCnt := logCntDelta |});
    [reflexivity | vm_compute; lia | lia | reflexivity].
Defined.

Section PasswdManagerInstances.
Import PasswdManager.

Lemma map_to_list_perm (m : gmap string string) : map_to_list m ≡ₚ map_to_list m.
Proof. reflexivity. Qed.

Lemma serving_8388_registered (u : bool) (port : string) :
  is_Some (get port (serving_8388 u)) ->
  is_Some (PortPassword (config (serving_8388 u)) !! port).
Proof.
  unfold get. simpl. intros [pl H].
  apply lookup_singleton_Some in H as [<- _]. rewrite lookup_singleton_eq. by eexists.
Qed.

Lemma serving_8388_matches (u : bool) : registry_matches config_8388 (serving_8388 u).
Proof.
  intros port. unfold get. simpl.
  destruct (decide (port = "8388"%string)) as [-> | Hne].
  - by rewrite !lookup_singleton_eq.
  - by rewrite !lookup_singleton_ne.
Qed.

Lemma sockets_ok_kept_witness :
  sockets_ok (serving_8388 false)
  /\ sockets_ok (updatePortPasswd "8388" "changed" (serving_8388 false))
  /\ sockets_ok (del "8388" (serving_8388 false)).
Proof.
  split; [apply serving_8388_ok|].
  apply (sockets_ok_kept "8388" "changed" (serving_8388 false)
           (serving_8388_ok false)).
Defined.

Lemma updatePasswd_no_udp_witness :
  udp (serving_8388 false) = false
  /\ unifyPortPassword config_8389 = Some config_8389
  /\ exists w',
      updatePasswd map_to_list (Some config_8389) (serving_8388 false) = Some w'
      /\ (forall port, is_Some (get port w') ->
                       is_Some (PortPassword config_8389 !! port)).
Proof.
  split; [reflexivity|]. split; [vm_compute; reflexivity|].
  destruct (updatePasswd_no_udp map_to_list map_to_list_perm
              config_8389 config_8389 (serving_8388 false) eq_refl
              ltac:(vm_compute; reflexivity) (serving_8388_registered false))
    as (w' & Hw & _ & Hdom).
  exists w'. split; [exact Hw | exact Hdom].
Defined.

Lemma updatePasswd_started_witness :
  unifyPortPassword config_8389 = Some config_8389
  /\ exists w',
      updatePasswd map_to_list (Some config_8389) (serving_8388 false) = Some w'
      /\ started w' = [("8389"%string, "secret"%string)].
Proof.
  split; [vm_compute; reflexivity|].
  destruct (updatePasswd map_to_list (Some config_8389) (serving_8388 false))
    as [w'|] eqn:E; [|vm_compute in E; discriminate E].
  exists w'. split; [reflexivity|].
  apply (updatePasswd_started map_to_list config_8389 config_8389
           (serving_8388 false) w' ltac:(vm_compute; reflexivity) E).
Defined.

Lemma updatePasswd_unchanged_witness :
  unifyPortPassword config_8388 = Some config_8388
  /\ PortPassword (config (serving_8388 false)) = PortPassword config_8388
  /\ registry_matches config_8388 (serving_8388 false)
  /\ updatePasswd map_to_list (Some config_8388) (serving_8388 false)
     = Some (set_config config_8388 (serving_8388 false)).
Proof.
  split; [vm_compute; reflexivity|]. split; [reflexivity|].
  split; [apply serving_8388_matches|].
  apply (updatePasswd_unchanged map_to_list map_to_list_perm
           config_8388 config_8388 (serving_8388 false)
           ltac:(vm_compute; reflexivity) eq_refl (serving_8388_matches false)).
Defined.

Lemma updatePasswd_keeps_sockets_ok_witness :
  sockets_ok (serving_8388 true)
  /\ exists w',
      updatePasswd map_to_list (Some config_8389) (serving_8388 true) = Some w'
      /\ sockets_ok w'.
Proof.
  split; [apply serving_8388_ok|].
  destruct (updatePasswd map_to_list (Some config_8389) (serving_8388 true))
    as [w'|] eqn:E; [|vm_compute in E; discriminate E].
  exists w'. split; [reflexivity|].
  apply (updatePasswd_keeps_sockets_ok map_to_list (Some config_8389)
           (serving_8388 true) w' (serving_8388_ok true) E).
Defined.

End PasswdManagerInstances.
